(** * Email phishing detection: the summarize endpoint and its reply parser

    A shallow embedding of [main.py] (the FastAPI backend), of its earlier
    variant [sampleSummary.py] and of the submit gate of [app.py] (the
    Streamlit form), followed by the properties of the reply parser, the
    link scanner and the error boundary.

    Python [str] values are sequences of Unicode code points; they are
    modelled as lists of code points so that [str.strip], [str.split],
    [str.replace] and the two regular expressions can be written out the
    way the interpreter evaluates them. *)

From Stdlib Require Import List NArith ZArith Bool Lia Arith.
From Stdlib Require Ascii String DecimalString.
Import ListNotations.
Import Ascii.AsciiSyntax String.StringSyntax.
Delimit Scope char_scope with char.
Delimit Scope string_scope with string.

(** ** Python strings *)

Module Py.

Definition char := N.
Definition str := list char.

(** Code point of an ASCII character, and a literal of the source. *)
Definition ch (a : Ascii.ascii) : char := Ascii.N_of_ascii a.
Definition lit (s : String.string) : str :=
  map Ascii.N_of_ascii (String.list_ascii_of_string s).
Arguments ch a%_char : simpl never.
Arguments lit s%_string : simpl never.

Definition char_eqb (a b : char) : bool := N.eqb a b.

Fixpoint str_eqb (a b : str) : bool :=
  match a, b with
  | [], [] => true
  | x :: a', y :: b' => char_eqb x y && str_eqb a' b'
  | _, _ => false
  end.

(** Truthiness of a string: [if value:] holds for non-empty strings. *)
Definition truthy (s : str) : bool :=
  match s with [] => false | _ :: _ => true end.

(** [str.isspace] on one code point, which is also what [\s] means in a
    [re] pattern over [str]: the ASCII controls 0x09-0x0D and 0x1C-0x1F,
    the space, and the Unicode separators. *)
Definition isspace (c : char) : bool :=
  ((9 <=? c) && (c <=? 13) || (28 <=? c) && (c <=? 32)
   || (c =? 133) || (c =? 160) || (c =? 5760)
   || (8192 <=? c) && (c <=? 8202)
   || (c =? 8232) || (c =? 8233) || (c =? 8239) || (c =? 8287)
   || (c =? 12288))%N.

Fixpoint lstrip (s : str) : str :=
  match s with
  | [] => []
  | c :: r => if isspace c then lstrip r else s
  end.

Definition rstrip (s : str) : str := rev (lstrip (rev s)).

(** [s.strip()] *)
Definition strip (s : str) : str := rstrip (lstrip s).

(** [s.startswith(prefix)] *)
Fixpoint startswith (s prefix : str) {struct prefix} : bool :=
  match prefix, s with
  | [], _ => true
  | p :: ps, c :: cs => char_eqb p c && startswith cs ps
  | _ :: _, [] => false
  end.

(** [sub in s] *)
Fixpoint contains (sub s : str) : bool :=
  startswith s sub ||
  match s with
  | [] => false
  | _ :: r => contains sub r
  end.

(** [s.split(sep)] for a non-empty [sep] (every call site passes a
    literal): the scan goes left to right, cuts at each place where [sep]
    starts and resumes after it.  [skip] counts the characters of a
    separator still to be passed over and [cur] holds the current piece,
    reversed. *)
Fixpoint split_aux (sep : str) (skip : nat) (cur : str) (s : str) : list str :=
  match s with
  | [] => [rev cur]
  | c :: r =>
      match skip with
      | S k => split_aux sep k cur r
      | O =>
          if startswith s sep
          then rev cur :: split_aux sep (length sep - 1) [] r
          else split_aux sep 0 (c :: cur) r
      end
  end.

Definition split (s sep : str) : list str := split_aux sep 0 [] s.

(** [s.replace(old, new)]: non-overlapping occurrences of [old], found
    left to right, are replaced.  For an empty [old] Python inserts [new]
    before every character and at the end. *)
Fixpoint replace_aux (old new : str) (skip : nat) (s : str) : str :=
  match s with
  | [] => []
  | c :: r =>
      match skip with
      | S k => replace_aux old new k r
      | O =>
          if startswith s old
          then new ++ replace_aux old new (length old - 1) r
          else c :: replace_aux old new 0 r
      end
  end.

Definition replace (s old new : str) : str :=
  match old with
  | [] => new ++ flat_map (fun c => c :: new) s
  | _ :: _ => replace_aux old new 0 s
  end.

(** [sep.join(parts)] *)
Fixpoint join (sep : str) (parts : list str) : str :=
  match parts with
  | [] => []
  | [x] => x
  | x :: r => x ++ sep ++ join sep r
  end.

(** [s.capitalize()] for a string of ASCII letters (the two call sites
    pass such literals): first letter upper case, the others lower. *)
Definition upper (c : char) : char :=
  if ((97 <=? c) && (c <=? 122))%N then (c - 32)%N else c.

Definition lower (c : char) : char :=
  if ((65 <=? c) && (c <=? 90))%N then (c + 32)%N else c.

Definition capitalize (s : str) : str :=
  match s with
  | [] => []
  | c :: r => upper c :: map lower r
  end.

(** [str(n)] for an [int]. *)
Definition str_of_int (z : Z) : str := lit (DecimalString.NilZero.string_of_int (Z.to_int z)).

End Py.
Import Py.

(** ** Regular expressions of the source *)

Module Re.

(** Index of the first '>' of [s]. *)
Fixpoint find_gt (s : str) : option nat :=
  match s with
  | [] => None
  | c :: r => if char_eqb c (ch ">") then Some 0 else option_map S (find_gt r)
  end.

(** Length of the match of [<[^>]+>] anchored at the head of [s].  After
    '<' the class [[^>]+] takes every character up to the first '>'
    (a shorter run is never followed by '>'), and needs at least one. *)
Definition match_tag (s : str) : option nat :=
  match s with
  | [] => None
  | c :: r =>
      if char_eqb c (ch "<") then
        match find_gt r with
        | Some (S k) => Some (S (S (S k)))
        | _ => None
        end
      else None
  end.

(** [re.sub(r'<[^>]+>', '', s)]: leftmost matches, none overlapping; a
    character at which no match starts is copied. *)
Fixpoint sub_tags_aux (skip : nat) (s : str) : str :=
  match s with
  | [] => []
  | c :: r =>
      match skip with
      | S k => sub_tags_aux k r
      | O =>
          match match_tag s with
          | Some n => sub_tags_aux (n - 1) r
          | None => c :: sub_tags_aux 0 r
          end
      end
  end.

Definition sub_tags (s : str) : str := sub_tags_aux 0 s.

(** Length of the longest prefix of [s] without whitespace: [\S*]. *)
Fixpoint span_nonspace (s : str) : nat :=
  match s with
  | [] => 0
  | c :: r => if isspace c then 0 else S (span_nonspace r)
  end.

(** Length of the match of [https?://\S+] anchored at the head of [s].
    When an 's' follows "http" the optional group takes it; giving it
    back would put "://" on that 's', so no second attempt is needed. *)
Definition match_url (s : str) : option nat :=
  if startswith s (lit "http") then
    let r := skipn 4 s in
    let '(r, n) :=
      match r with
      | c :: r' => if char_eqb c (ch "s") then (r', 5) else (r, 4)
      | [] => (r, 4)
      end in
    if startswith r (lit "://") then
      match span_nonspace (skipn 3 r) with
      | O => None
      | S k => Some (n + 3 + S k)
      end
    else None
  else None.

(** [re.findall(r'(https?://\S+)', s)]: the pattern has one group, which
    spans the whole match, so the result lists the matched texts. *)
Fixpoint findall_url_aux (skip : nat) (s : str) : list str :=
  match s with
  | [] => []
  | c :: r =>
      match skip with
      | S k => findall_url_aux k r
      | O =>
          match match_url s with
          | Some n => firstn n s :: findall_url_aux (n - 1) r
          | None => findall_url_aux 0 r
          end
      end
  end.

Definition findall_url (s : str) : list str := findall_url_aux 0 s.

End Re.

(** ** Dictionaries

    A Python [dict] keeps its keys in insertion order, and two claims
    depend on that order, so a dictionary is an association list with
    unique keys: assignment to a present key keeps its place. *)

Module Dict.

Definition dict (V : Type) := list (str * V).

Fixpoint get {V} (d : dict V) (k : str) : option V :=
  match d with
  | [] => None
  | (k', v) :: r => if str_eqb k' k then Some v else get r k
  end.

(** [d[k] = v] *)
Fixpoint setitem {V} (d : dict V) (k : str) (v : V) : dict V :=
  match d with
  | [] => [(k, v)]
  | (k', v') :: r =>
      if str_eqb k' k then (k', v) :: r else (k', v') :: setitem r k v
  end.

(** [d[k]], raising [KeyError] through the caller's error type. *)
Definition getitem {V E} (d : dict V) (k : str) (key_error : E) : E + V :=
  match get d k with
  | Some v => inr v
  | None => inl key_error
  end.

(** [d.keys()] *)
Definition keys {V} (d : dict V) : list str := map fst d.

(** [k in d] *)
Definition mem {V} (d : dict V) (k : str) : bool :=
  match get d k with Some _ => true | None => false end.

End Dict.
Import Dict.

(** ** Reply cleaning and field extraction ([main.py], [sampleSummary.py]) *)

Definition THINK : str := lit "<think>".
Definition CRLF : str := [13; 10]%N.
Definition LF : str := [10]%N.

(** [clean_response(content)], the same function in both backends. *)
Definition clean_response (content : str) : str :=
  let content :=
    if contains THINK content then last (split content THINK) [] else content in
  let content := Re.sub_tags content in
  strip (replace content CRLF LF).

Definition SUMMARY : str := lit "SUMMARY:".
Definition RISK_LEVEL : str := lit "RISK_LEVEL:".
Definition RISK_DETAILS : str := lit "RISK_DETAILS:".

Definition required_fields : list str := [SUMMARY; RISK_LEVEL; RISK_DETAILS].

(** [all(field in content for field in required_fields)] *)
Definition has_required_fields (content : str) : bool :=
  forallb (fun field => contains field content) required_fields.

(** [[line.strip() for line in content.split('\n') if line.strip()]] *)
Definition content_lines (content : str) : list str :=
  map strip (filter (fun line => truthy (strip line)) (split content LF)).

Definition initial_parsed_data : dict str :=
  [ (SUMMARY, lit "No summary available");
    (RISK_LEVEL, lit "UNKNOWN");
    (RISK_DETAILS, lit "No details provided") ].

(** Body of the inner loop: one line against one field. *)
Definition update_field (line : str) (parsed_data : dict str) (field : str) : dict str :=
  if startswith line field then
    let value := strip (replace line field []) in
    if truthy value then setitem parsed_data field value else parsed_data
  else parsed_data.

(** [for field in parsed_data.keys(): ...] for one line. *)
Definition process_line (parsed_data : dict str) (line : str) : dict str :=
  fold_left (update_field line) (keys parsed_data) parsed_data.

(** [for line in lines: ...] from the defaults. *)
Definition parse_fields (lines : list str) : dict str :=
  fold_left process_line lines initial_parsed_data.

Definition risk_levels : list str := [lit "LOW"; lit "MEDIUM"; lit "HIGH"; lit "UNKNOWN"].

(** [if risk_level not in [...]: risk_level = "UNKNOWN"] *)
Definition normalize_risk_level (risk_level : str) : str :=
  if existsb (str_eqb risk_level) risk_levels then risk_level else lit "UNKNOWN".

(** ** Python objects, exceptions and effects *)

(** Values that [response.json()] can return and that a request payload
    is built from.  A float is a decimal [m * 10^e]. *)
#[warnings="-register-all"] Inductive pyobj :=
| PNone
| PBool (b : bool)
| PInt (z : Z)
| PFloat (m e : Z)
| PStr (s : str)
| PList (l : list pyobj)
| PDict (d : dict pyobj).

(** Exceptions, all of them subclasses of [Exception].  The first three
    come from [requests]; [OtherException] stands for any other exception
    of the transport or of JSON decoding, told apart by a tag. *)
Inductive exn :=
| Timeout (connect : bool)
| RetryError
| OtherException (tag : N)
| KeyError
| IndexError
| TypeError
| AttributeError.

Definition result (A : Type) := (exn + A)%type.

Definition rbind {A B} (m : result A) (k : A -> result B) : result B :=
  match m with
  | inr a => k a
  | inl e => inl e
  end.

Declare Scope result_scope.
Delimit Scope result_scope with result.
Notation "x <~ m ;; k" := (rbind m (fun x => k))
  (at level 61, m at next level, right associativity) : result_scope.
Open Scope result_scope.

Definition is_dict (o : pyobj) : bool :=
  match o with PDict _ => true | _ => false end.

Definition is_list (o : pyobj) : bool :=
  match o with PList _ => true | _ => false end.

(** [key in o] for a string [key]. *)
Definition py_contains (key : str) (o : pyobj) : result bool :=
  match o with
  | PDict d => inr (mem d key)
  | PList l =>
      inr (existsb (fun x => match x with PStr s => str_eqb s key | _ => false end) l)
  | PStr s => inr (contains key s)
  | _ => inl TypeError
  end.

(** [o[key]] for a string [key]. *)
Definition py_getitem (o : pyobj) (key : str) : result pyobj :=
  match o with
  | PDict d => getitem d key KeyError
  | _ => inl TypeError
  end.

(** [o.get(key)] *)
Definition py_get (o : pyobj) (key : str) : result pyobj :=
  match o with
  | PDict d => inr (match get d key with Some v => v | None => PNone end)
  | _ => inl AttributeError
  end.

(** [o[key] = v] *)
Definition py_setitem (o : pyobj) (key : str) (v : pyobj) : result pyobj :=
  match o with
  | PDict d => inr (PDict (setitem d key v))
  | PList _ => inl TypeError
  | _ => inl TypeError
  end.

(** [o == s] for a string [s]. *)
Definition py_eq_str (o : pyobj) (s : str) : bool :=
  match o with
  | PStr t => str_eqb t s
  | _ => false
  end.

(** [o.split(sep)] *)
Definition py_split (o : pyobj) (sep : str) : result (list str) :=
  match o with
  | PStr s => inr (split s sep)
  | _ => inl AttributeError
  end.

(** [o[0]]; the keys of a decoded JSON object are strings, so [0] is
    never among them. *)
Definition py_getitem0 (o : pyobj) : result pyobj :=
  match o with
  | PList (x :: _) => inr x
  | PList [] => inl IndexError
  | PStr (c :: _) => inr (PStr [c])
  | PStr [] => inl IndexError
  | PDict _ => inl KeyError
  | _ => inl TypeError
  end.

(** [o.strip()] *)
Definition py_strip (o : pyobj) : result str :=
  match o with
  | PStr s => inr (strip s)
  | _ => inl AttributeError
  end.

(** Truth value of an object. *)
Definition py_truthy (o : pyobj) : bool :=
  match o with
  | PNone => false
  | PBool b => b
  | PInt z => negb (Z.eqb z 0)
  | PFloat m _ => negb (Z.eqb m 0)
  | PStr s => truthy s
  | PList l => match l with [] => false | _ => true end
  | PDict d => match d with [] => false | _ => true end
  end.

(** What [session.post] gives back. *)
Record Response := {
  status_code : Z;
  text : str;
  json : result pyobj      (* [response.json()] may raise *)
}.

Inductive post_outcome :=
| Raises (e : exn)
| Returns (r : Response).

(** The surroundings of a handler: the optional [validators] package
    ([None] when the import failed), the remote end of [session.post],
    and the text [str(e)] of an exception. *)
Record world := {
  validators_url : option (str -> bool);
  session_post : str -> pyobj -> post_outcome;
  exc_str : exn -> str
}.

(** The one observable effect: a POST with its URL and JSON body.
    Headers and the timeout pair are fixed configuration. *)
Inductive event :=
| HttpPost (url : str) (payload : pyobj).

(** Computations that may raise and that append to the log of requests. *)
Definition io (A : Type) := list event -> result A * list event.

Definition ret {A} (a : A) : io A := fun log => (inr a, log).

Definition raise {A} (e : exn) : io A := fun log => (inl e, log).

Definition bind {A B} (m : io A) (k : A -> io B) : io B :=
  fun log =>
    match m log with
    | (inr a, log') => k a log'
    | (inl e, log') => (inl e, log')
    end.

Definition lift {A} (r : result A) : io A := fun log => (r, log).

(** [try: m  except Exception as e: h e] *)
Definition try_except {A} (m : io A) (h : exn -> io A) : io A :=
  fun log =>
    match m log with
    | (inl e, log') => h e log'
    | (inr a, log') => (inr a, log')
    end.

(** [session.post(url, json=data, ...)] *)
Definition post (w : world) (url : str) (data : pyobj) : io Response :=
  fun log =>
    (match session_post w url data with
     | Raises e => inl e
     | Returns r => inr r
     end, log ++ [HttpPost url data]).

Declare Scope io_scope.
Delimit Scope io_scope with io.
Notation "x <- m ;; k" := (bind m (fun x => k))
  (at level 61, m at next level, right associativity) : io_scope.
Open Scope io_scope.

(** ** [main.py]: the backend *)

Module Main.

Definition API_URL : str := lit "https://api.openai.com/v1/chat/completions".
Definition MODEL_NAME : str := lit "gpt-3.5-turbo".

Record EmailRequest := {
  subject : str;
  sender : str;
  recipient : str;
  body : str
}.

Record APIResponse := {
  summary : str;
  status : str;
  risk_assessment : str;
  error : option str;
  link_scan_results : option (dict str)
}.

Definition system_prompt : str :=
  join LF
    [ lit "You are an email security analyzer. Analyze emails and respond EXACTLY in this format with no additional text:";
      lit "SUMMARY: Brief one-line description of email content";
      lit "RISK_LEVEL: LOW|MEDIUM|HIGH";
      lit "RISK_DETAILS: One-sentence explanation of risk assessment" ].

Definition user_prompt (email : EmailRequest) : str :=
  join LF
    [ lit "Analyze this email based on:";
      lit "- Sender domain legitimacy";
      lit "- Urgency/pressure tactics";
      lit "- Unusual requests";
      lit "- Links/attachments";
      lit "- Financial/credential requests";
      lit "";
      lit "Email details:";
      lit "SUBJECT: " ++ subject email;
      lit "FROM: " ++ sender email;
      lit "TO: " ++ recipient email;
      lit "BODY: " ++ body email ].

(** The [data] dictionary of [summarize_email]. *)
Definition payload (email : EmailRequest) : pyobj :=
  PDict
    [ (lit "model", PStr MODEL_NAME);
      (lit "messages",
       PList
         [ PDict [ (lit "role", PStr (lit "system"));
                   (lit "content", PStr system_prompt) ];
           PDict [ (lit "role", PStr (lit "user"));
                   (lit "content", PStr (user_prompt email)) ] ]);
      (lit "temperature", PFloat 3 (-1));
      (lit "max_tokens", PInt 150) ].

(** The loop of [validate_payload] over the messages. *)
Fixpoint check_messages (messages : list pyobj) : result bool :=
  match messages with
  | [] => inr true
  | msg :: rest =>
      has_role <~ py_contains (lit "role") msg ;;
      if negb has_role then inr false else
      has_content <~ py_contains (lit "content") msg ;;
      if negb has_content then inr false else
      check_messages rest
  end.

Definition validate_payload (data : pyobj) : result bool :=
  if negb (is_dict data) then inr false else
  has_model <~ py_contains (lit "model") data ;;
  if negb has_model then inr false else
  has_messages <~ py_contains (lit "messages") data ;;
  if negb has_messages then inr false else
  messages <~ py_getitem data (lit "messages") ;;
  match messages with
  | PList msgs =>
      if negb (forallb is_dict msgs) then inr false else check_messages msgs
  | _ => inr false
  end.

Definition validate_response (response : pyobj) : result (option str) :=
  if negb (is_dict response) then
    inr (Some (lit "Response must be a dictionary."))
  else
  has_choices <~ py_contains (lit "choices") response ;;
  if negb has_choices then
    inr (Some (lit "Response must contain a 'choices' field with a list."))
  else
  choices <~ py_getitem response (lit "choices") ;;
  if negb (is_list choices) then
    inr (Some (lit "Response must contain a 'choices' field with a list."))
  else
  if negb (py_truthy choices) then
    inr (Some (lit "The 'choices' list is empty."))
  else
  first <~ py_getitem0 choices ;;
  has_message <~ py_contains (lit "message") first ;;
  if negb has_message then
    inr (Some (lit "The first choice must contain a 'message' field with 'content'."))
  else
  message <~ py_getitem first (lit "message") ;;
  has_content <~ py_contains (lit "content") message ;;
  if negb has_content then
    inr (Some (lit "The first choice must contain a 'message' field with 'content'."))
  else inr None.

Definition extract_links (body : str) : list str := Re.findall_url body.

Definition scan_links (validators : option (str -> bool)) (links : list str) : dict str :=
  fold_left
    (fun scanned_results link =>
       let valid :=
         match validators with
         | Some url => url link
         | None => false
         end in
       if valid then setitem scanned_results link (lit "SAFE")
       else
         setitem scanned_results link
           (match validators with
            | Some _ => lit "INVALID"
            | None => lit "UNKNOWN"
            end))
    links [].

(** The error reply shared by four of the return sites. *)
Definition failed (message : str) : APIResponse :=
  {| summary := []; status := lit "error"; risk_assessment := [];
     error := Some message; link_scan_results := None |}.

Definition summarize_email (w : world) (email : EmailRequest) : io APIResponse :=
  let data := payload email in
  valid <- lift (validate_payload data) ;;
  if negb valid then ret (failed (lit "Invalid payload structure.")) else
  try_except
    (let links := extract_links (body email) in
     let link_scan_results := scan_links (validators_url w) links in
     response <- post w API_URL data ;;
     if (status_code response =? 200)%Z then
       result <- lift (json response) ;;
       error <- lift (validate_response result) ;;
       if match error with Some e => truthy e | None => false end then
         ret (failed (match error with Some e => e | None => [] end))
       else
       choices <- lift (py_getitem result (lit "choices")) ;;
       first <- lift (py_getitem0 choices) ;;
       message <- lift (py_getitem first (lit "message")) ;;
       content <- lift (py_getitem message (lit "content")) ;;
       raw_content <- lift (py_strip content) ;;
       let content := clean_response raw_content in
       if negb (has_required_fields content) then
         ret {| summary := lit "Error: Invalid response format";
                status := lit "error";
                risk_assessment := lit "UNKNOWN - Response format error";
                error := Some (lit "API response missing required fields");
                link_scan_results := None |}
       else
       let lines := content_lines content in
       let parsed_data := parse_fields lines in
       risk_level <- lift (getitem parsed_data RISK_LEVEL KeyError) ;;
       let risk_level := normalize_risk_level risk_level in
       summary <- lift (getitem parsed_data SUMMARY KeyError) ;;
       risk_details <- lift (getitem parsed_data RISK_DETAILS KeyError) ;;
       ret {| summary := summary;
              status := lit "success";
              risk_assessment := risk_level ++ lit " - " ++ risk_details;
              error := None;
              link_scan_results := Some link_scan_results |}
     else
       let error_message :=
         lit "API Error: " ++ str_of_int (status_code response)
           ++ lit " - " ++ text response in
       ret (failed error_message))
    (fun e => ret (failed (lit "Request failed: " ++ exc_str w e))).

End Main.

(** ** [sampleSummary.py]: the earlier backend

    The same handler without the envelope validator and the link scan,
    with an emptiness check after cleaning and with one [except] clause
    per kind of transport failure. *)

Module SampleSummary.

Definition API_URL : str := lit "https://integrate.api.nvidia.com/v1/chat/completions".
Definition MODEL_NAME : str := lit "deepseek-ai/deepseek-r1".

Record EmailRequest := {
  subject : str;
  sender : str;
  recipient : str;
  body : str
}.

Record APIResponse := {
  summary : str;
  status : str;
  risk_assessment : str;
  error : option str
}.

Definition system_prompt : str :=
  join LF
    [ lit "You are an email security analyzer. Analyze emails and respond EXACTLY in this format with no additional text:";
      lit "";
      lit "SUMMARY: Brief one-line description of email content";
      lit "RISK_LEVEL: LOW|MEDIUM|HIGH";
      lit "RISK_DETAILS: One-sentence explanation of risk assessment";
      lit "";
      lit "Assessment criteria:";
      lit "- LOW: Standard business communication with no suspicious elements";
      lit "- MEDIUM: Contains some unusual elements but no immediate threat";
      lit "- HIGH: Contains multiple red flags or direct security threats" ].

Definition user_prompt (email : EmailRequest) : str :=
  join LF
    [ lit "Analyze this email based on:";
      lit "- Sender domain legitimacy";
      lit "- Urgency/pressure tactics";
      lit "- Unusual requests";
      lit "- Links/attachments";
      lit "- Financial/credential requests";
      lit "";
      lit "Email details:";
      lit "SUBJECT: " ++ subject email;
      lit "FROM: " ++ sender email;
      lit "TO: " ++ recipient email;
      lit "BODY: " ++ body email ].

Definition payload (email : EmailRequest) : pyobj :=
  PDict
    [ (lit "messages",
       PList
         [ PDict [ (lit "role", PStr (lit "system"));
                   (lit "content", PStr system_prompt) ];
           PDict [ (lit "role", PStr (lit "user"));
                   (lit "content", PStr (user_prompt email)) ] ]);
      (lit "model", PStr MODEL_NAME);
      (lit "max_tokens", PInt 150);
      (lit "temperature", PFloat 1 (-1)) ].

Definition failed (message : str) : APIResponse :=
  {| summary := []; status := lit "error"; risk_assessment := [];
     error := Some message |}.

Definition summarize_email (w : world) (email : EmailRequest) : io APIResponse :=
  let data := payload email in
  try_except
    (response <- post w API_URL data ;;
     if (status_code response =? 200)%Z then
       result <- lift (json response) ;;
       choices <- lift (py_getitem result (lit "choices")) ;;
       first <- lift (py_getitem0 choices) ;;
       message <- lift (py_getitem first (lit "message")) ;;
       content <- lift (py_getitem message (lit "content")) ;;
       raw_content <- lift (py_strip content) ;;
       let content := clean_response raw_content in
       if negb (truthy content) then
         ret {| summary := lit "Error: Empty response";
                status := lit "error";
                risk_assessment := lit "UNKNOWN - Empty response";
                error := Some (lit "API returned empty or invalid response") |}
       else
       if negb (has_required_fields content) then
         ret {| summary := lit "Error: Invalid response format";
                status := lit "error";
                risk_assessment := lit "UNKNOWN - Response format error";
                error := Some (lit "API response missing required fields") |}
       else
       let lines := content_lines content in
       let parsed_data := parse_fields lines in
       risk_level <- lift (getitem parsed_data RISK_LEVEL KeyError) ;;
       let risk_level := normalize_risk_level risk_level in
       summary <- lift (getitem parsed_data SUMMARY KeyError) ;;
       risk_details <- lift (getitem parsed_data RISK_DETAILS KeyError) ;;
       ret {| summary := summary;
              status := lit "success";
              risk_assessment := risk_level ++ lit " - " ++ risk_details;
              error := None |}
     else
       let error_message :=
         lit "API Error: " ++ str_of_int (status_code response)
           ++ lit " - " ++ text response in
       ret (failed error_message))
    (fun e =>
       match e with
       | Timeout connect =>
           let timeout_type := if connect then lit "connection" else lit "read" in
           let error_msg :=
             capitalize timeout_type ++ lit " timeout occurred. Please try again." in
           ret (failed error_msg)
       | RetryError =>
           ret (failed (lit "Service temporarily unavailable. Please try again later."))
       | _ => ret (failed (lit "Request failed: " ++ exc_str w e))
       end).

End SampleSummary.

(** ** [app.py]: the form

    The request function of the form and the gate of its submit button.
    What the page renders from the result, and the history kept in the
    session, are left out. *)

Module App.

Definition BACKEND_URL : str := lit "http://localhost:8000/summarize".

(** [clean_summary] applied to the decoded ["summary"] entry. *)
Definition clean_summary (summary : pyobj) : result str :=
  has_think <~ py_contains THINK summary ;;
  if has_think then
    parts <~ py_split summary THINK ;;
    inr (strip (strip (last parts [])))
  else py_strip summary.

Definition failure (message : str) : pyobj :=
  PDict [ (lit "status", PStr (lit "error"));
          (lit "error", PStr message);
          (lit "summary", PStr []) ].

Definition summarize_email (w : world) (subject sender recipient body : str) : io pyobj :=
  let payload :=
    PDict [ (lit "subject", PStr subject);
            (lit "sender", PStr sender);
            (lit "recipient", PStr recipient);
            (lit "body", PStr body) ] in
  try_except
    (response <- post w BACKEND_URL payload ;;
     if (status_code response =? 200)%Z then
       result <- lift (json response) ;;
       status <- lift (py_get result (lit "status")) ;;
       if py_eq_str status (lit "success") then
         summary <- lift (py_get result (lit "summary")) ;;
         if py_truthy summary then
           summary <- lift (py_getitem result (lit "summary")) ;;
           cleaned <- lift (clean_summary summary) ;;
           lift (py_setitem result (lit "summary") (PStr cleaned))
         else ret result
       else ret result
     else
       ret (failure (lit "API returned " ++ str_of_int (status_code response))))
    (fun e =>
       match e with
       | Timeout _ => ret (failure (lit "Request timed out"))
       | _ => ret (failure (exc_str w e))
       end).

(** What a click on "Summarize Email" leads to. *)
Inductive click_outcome :=
| FillInAllFields                    (* [st.error("Please fill in all fields")] *)
| Summarized (result : pyobj).

Definition on_click (w : world) (subject sender recipient body : str) : io click_outcome :=
  if negb (forallb truthy [subject; sender; recipient; body]) then
    ret FillInAllFields
  else
    result <- summarize_email w subject sender recipient body ;;
    ret (Summarized result).

End App.

(** ** Notions the properties are stated with

    These follow the wording of the specification, not the code; the
    theorems below relate the two. *)

Module Spec.

(** The remainder of a line for a field: marker stripped, then trimmed. *)
Definition field_value (field line : str) : str :=
  strip (replace line field []).

(** A line that starts with the marker and has a non-empty remainder. *)
Definition nonempty_match (field line : str) : bool :=
  startswith line field && truthy (field_value field line).

(** The last non-empty match among the lines, or the default. *)
Definition last_nonempty_match (field default : str) (lines : list str) : str :=
  last (map (field_value field) (filter (nonempty_match field) lines)) default.

(** [marker] occurs in [s] at index [j]. *)
Definition occurs_at (marker s : str) (j : nat) : bool :=
  startswith (skipn j s) marker.

(** Index [i] of [s] lies inside some occurrence of [marker]. *)
Definition covered (marker s : str) (i : nat) : bool :=
  existsb (fun j => occurs_at marker s j && (i <? j + length marker))
          (seq 0 (S i)).

(** The characters of [s], from index [i] on, outside of [cov]. *)
Fixpoint keep_uncovered (cov : nat -> bool) (i : nat) (s : str) : str :=
  match s with
  | [] => []
  | c :: r =>
      if cov i then keep_uncovered cov (S i) r
      else c :: keep_uncovered cov (S i) r
  end.

(** [s] with every occurrence of [marker] removed. *)
Definition delete_occurrences (marker s : str) : str :=
  keep_uncovered (covered marker s) 0 s.

(** [s], from index [i] of [whole] on, with [new] in the place of every
    occurrence of [marker]. *)
Fixpoint substitute_from (marker new whole : str) (i : nat) (s : str) : str :=
  match s with
  | [] => []
  | c :: r =>
      if occurs_at marker whole i then
        new ++ substitute_from marker new whole (S i) r
      else if covered marker whole i then
        substitute_from marker new whole (S i) r
      else c :: substitute_from marker new whole (S i) r
  end.

Definition substitute_occurrences (marker new s : str) : str :=
  substitute_from marker new s 0 s.

(** No proper prefix of [marker] is also a suffix of it, so that two
    occurrences never overlap. *)
Definition unbordered (marker : str) : bool :=
  forallb
    (fun k => negb (str_eqb (firstn k marker) (skipn (length marker - k) marker)))
    (seq 1 (length marker - 1)).

(** [s] holds an angle-bracket tag: a '<', one or more characters other
    than '>', and a '>'. *)
Definition has_tag (s : str) : Prop :=
  exists pre inner post,
    s = pre ++ ch "<" :: inner ++ ch ">" :: post /\
    inner <> [] /\
    Forall (fun c => c <> ch ">") inner.

(** [post] is what follows the last occurrence of [marker] in [s]. *)
Definition after_last (marker s post : str) : Prop :=
  (exists pre, s = pre ++ marker ++ post) /\ contains marker post = false.

(** A URL-like token: a scheme prefix and one or more characters, none
    of them whitespace. *)
Definition is_url_token (t : str) : Prop :=
  exists scheme rest,
    t = scheme ++ rest /\
    (scheme = lit "http://" \/ scheme = lit "https://") /\
    rest <> [] /\
    Forall (fun c => isspace c = false) rest.

(** [t] occurs in [s] at index [i] and ends at whitespace or at the end. *)
Definition token_at (s t : str) (i : nat) : Prop :=
  exists post,
    skipn i s = t ++ post /\ i <= length s /\
    match post with
    | [] => True
    | c :: _ => isspace c = true
    end.

(** First occurrences, in order. *)
Fixpoint dedup (l : list str) : list str :=
  match l with
  | [] => []
  | x :: r => x :: filter (fun y => negb (str_eqb x y)) (dedup r)
  end.

(** The tag of one link. *)
Definition classify (validators : option (str -> bool)) (link : str) : str :=
  match validators with
  | Some url => if url link then lit "SAFE" else lit "INVALID"
  | None => lit "UNKNOWN"
  end.

(** The content string of a well-formed envelope: a mapping with a
    [choices] list whose first element holds a [message] mapping with a
    [content] string. *)
Definition envelope_content (envelope : pyobj) : option str :=
  match envelope with
  | PDict d =>
      match get d (lit "choices") with
      | Some (PList (PDict first :: _)) =>
          match get first (lit "message") with
          | Some (PDict message) =>
              match get message (lit "content") with
              | Some (PStr content) => Some content
              | _ => None
              end
          | _ => None
          end
      | _ => None
      end
  | _ => None
  end.

(** The reply text the completion API delivers for a request, if the
    call returns status 200 with a well-formed envelope. *)
Definition delivered (w : world) (url : str) (data : pyobj) : option str :=
  match session_post w url data with
  | Returns r =>
      if (status_code r =? 200)%Z then
        match json r with
        | inr envelope => envelope_content envelope
        | inl _ => None
        end
      else None
  | Raises _ => None
  end.

(** A call that fails: the transport raises (any exception, a timeout or
    exhausted retries among them), the status is not 200, the body does
    not decode, the envelope is malformed, or the cleaned reply lacks a
    required field. *)
Definition failed_call (w : world) (url : str) (data : pyobj) : Prop :=
  match session_post w url data with
  | Raises _ => True
  | Returns resp =>
      status_code resp <> 200%Z \/
      match json resp with
      | inl _ => True
      | inr envelope =>
          match envelope_content envelope with
          | None => True
          | Some raw => has_required_fields (clean_response (strip raw)) = false
          end
      end
  end.

End Spec.
Import Spec.

(** ** What the two patterns do to a text

    Stated on the text itself: which part is a match, what is kept and
    what is returned, reading from the left. *)

(** [s] begins with an angle-bracket tag: '<', the non-empty [inner]
    without '>', '>', and then [post]. *)
Definition tag_at_head (s inner post : str) : Prop :=
  s = ch "<" :: inner ++ ch ">" :: post /\
  inner <> [] /\
  Forall (fun c => c <> ch ">") inner.

(** [t] is [s] without its tags: reading from the left, a tag is dropped
    whole and the reading resumes behind it; any other character is kept
    in its place. *)
Inductive tags_removed : str -> str -> Prop :=
| removed_nil : tags_removed [] []
| removed_tag (s inner post t : str) :
    tag_at_head s inner post ->
    tags_removed post t ->
    tags_removed s t
| removed_keep (c : char) (r t : str) :
    (~ exists inner post, tag_at_head (c :: r) inner post) ->
    tags_removed r t ->
    tags_removed (c :: r) (c :: t).

(** [s] begins with the URL-like [token], which runs up to whitespace or
    to the end of the text; [post] is the rest. *)
Definition url_at_head (s token post : str) : Prop :=
  s = token ++ post /\
  is_url_token token /\
  match post with
  | [] => True
  | c :: _ => isspace c = true
  end.

(** [links] lists the URL-like tokens of [s] from left to right: where a
    token begins it is taken whole and the reading resumes behind it;
    where none begins, one character is passed over. *)
Inductive url_matches : str -> list str -> Prop :=
| matches_nil : url_matches [] []
| matches_here (s token post : str) (links : list str) :
    url_at_head s token post ->
    url_matches post links ->
    url_matches s (token :: links)
| matches_skip (c : char) (r : str) (links : list str) :
    (~ exists token post, url_at_head (c :: r) token post) ->
    url_matches r links ->
    url_matches (c :: r) links.

(** [t] is [s] without the whitespace at its two ends. *)
Definition trimmed_of (s t : str) : Prop :=
  exists a b,
    s = a ++ t ++ b /\
    forallb isspace a = true /\ forallb isspace b = true /\
    match t with [] => True | c :: _ => isspace c = false end /\
    match rev t with [] => True | c :: _ => isspace c = false end.

(** A well-formed reply, and one in which a marker recurs. *)
Definition invoice_reply : str :=
  lit "SUMMARY: Invoice reminder" ++ LF ++ lit "RISK_LEVEL: LOW" ++ LF
    ++ lit "RISK_DETAILS: Routine business email".

Definition repeated_reply : str :=
  lit "SUMMARY: first" ++ LF ++ lit "RISK_LEVEL: HIGH" ++ LF
    ++ lit "  SUMMARY: second  " ++ LF ++ lit "SUMMARY:" ++ LF
    ++ lit "RISK_DETAILS: see RISK_DETAILS: above".

(** A body with a repeated link and with a scheme inside a link. *)
Definition links_body : str :=
  lit "see https://b.org, http://a.com/x and https://b.org, or https://https://g now".

(** ** Auxiliary notions of the proofs *)

(** No '>' in [s]. *)
Fixpoint no_gt (s : str) : bool :=
  match s with
  | [] => true
  | c :: r => negb (char_eqb c (ch ">")) && no_gt r
  end.

Definition head_gt (s : str) : bool :=
  match s with
  | c :: _ => char_eqb c (ch ">")
  | [] => false
  end.

(** No match of [<[^>]+>] starts anywhere in [s]: each '<' is directly
    followed by '>' or has no '>' after it. *)
Fixpoint tag_free (s : str) : bool :=
  match s with
  | [] => true
  | c :: r => (negb (char_eqb c (ch "<")) || no_gt r || head_gt r) && tag_free r
  end.

(** The chain [result["choices"][0]["message"]["content"].strip()]. *)
Definition reply_text (envelope : pyobj) : result str :=
  choices <~ py_getitem envelope (lit "choices") ;;
  first <~ py_getitem0 choices ;;
  message <~ py_getitem first (lit "message") ;;
  content <~ py_getitem message (lit "content") ;;
  py_strip content.

(** What [main.py] answers for a cleaned reply text. *)
Definition main_reply (links : dict str) (content : str) : Main.APIResponse :=
  if has_required_fields content then
    let lines := content_lines content in
    {| Main.summary :=
         last_nonempty_match SUMMARY (lit "No summary available") lines;
       Main.status := lit "success";
       Main.risk_assessment :=
         normalize_risk_level
           (last_nonempty_match RISK_LEVEL (lit "UNKNOWN") lines)
           ++ lit " - "
           ++ last_nonempty_match RISK_DETAILS (lit "No details provided") lines;
       Main.error := None;
       Main.link_scan_results := Some links |}
  else
    {| Main.summary := lit "Error: Invalid response format";
       Main.status := lit "error";
       Main.risk_assessment := lit "UNKNOWN - Response format error";
       Main.error := Some (lit "API response missing required fields");
       Main.link_scan_results := None |}.

(** What [sampleSummary.py] answers for a cleaned reply text. *)
Definition sample_reply (content : str) : SampleSummary.APIResponse :=
  if truthy content then
    if has_required_fields content then
      let lines := content_lines content in
      {| SampleSummary.summary :=
           last_nonempty_match SUMMARY (lit "No summary available") lines;
         SampleSummary.status := lit "success";
         SampleSummary.risk_assessment :=
           normalize_risk_level
             (last_nonempty_match RISK_LEVEL (lit "UNKNOWN") lines)
             ++ lit " - "
             ++ last_nonempty_match RISK_DETAILS (lit "No details provided") lines;
         SampleSummary.error := None |}
    else
      {| SampleSummary.summary := lit "Error: Invalid response format";
         SampleSummary.status := lit "error";
         SampleSummary.risk_assessment := lit "UNKNOWN - Response format error";
         SampleSummary.error := Some (lit "API response missing required fields") |}
  else
    {| SampleSummary.summary := lit "Error: Empty response";
       SampleSummary.status := lit "error";
       SampleSummary.risk_assessment := lit "UNKNOWN - Empty response";
       SampleSummary.error := Some (lit "API returned empty or invalid response") |}.

(** The message of [sampleSummary.py] for an exception. *)
Definition sample_exception_message (w : world) (e : exn) : str :=
  match e with
  | Timeout true => lit "Connection timeout occurred. Please try again."
  | Timeout false => lit "Read timeout occurred. Please try again."
  | RetryError => lit "Service temporarily unavailable. Please try again later."
  | _ => lit "Request failed: " ++ exc_str w e
  end.

(** A reply whose summary line has an empty value. *)
Definition empty_summary_reply : str :=
  lit "SUMMARY: " ++ LF ++ lit "RISK_LEVEL: LOW" ++ LF ++ lit "RISK_DETAILS: ok".

(** [x] is not among the keys [ks]. *)
Definition not_in (ks : list str) (x : str) : bool :=
  negb (existsb (str_eqb x) ks).

(** ** Sample inquiries and remote ends *)

Definition pay_body : str := lit "Click http://example.com/pay now".

(** An inquiry without a subject. *)
Definition no_subject_email : Main.EmailRequest :=
  {| Main.subject := [];
     Main.sender := lit "billing@example.com";
     Main.recipient := lit "me@example.com";
     Main.body := lit "Pay now" |}.


Definition sample_email : Main.EmailRequest :=
  {| Main.subject := lit "Invoice";
     Main.sender := lit "billing@example.com";
     Main.recipient := lit "me@example.com";
     Main.body := lit "Click http://example.com/pay now" |}.

Definition sample_email' : SampleSummary.EmailRequest :=
  {| SampleSummary.subject := lit "Invoice";
     SampleSummary.sender := lit "billing@example.com";
     SampleSummary.recipient := lit "me@example.com";
     SampleSummary.body := lit "Click http://example.com/pay now" |}.

(** The envelope of a completion with the given text. *)
Definition envelope_of (content : str) : pyobj :=
  PDict
    [ (lit "choices",
       PList
         [ PDict
             [ (lit "message",
                PDict [ (lit "role", PStr (lit "assistant"));
                        (lit "content", PStr content) ]) ] ]) ].

(** A remote end that answers every request with that text; no
    [validators] package. *)
Definition world_replying (content : str) : world :=
  {| validators_url := None;
     session_post := fun _ _ =>
       Returns {| status_code := 200; text := []; json := inr (envelope_of content) |};
     exc_str := fun _ => lit "error" |}.

(** A remote end that never answers in time. *)
Definition world_read_timeout : world :=
  {| validators_url := None;
     session_post := fun _ _ => Raises (Timeout false);
     exc_str := fun _ => lit "Read timed out." |}.

(** A message the payload check accepts: a mapping with the two keys. *)
Definition well_formed_message (msg : pyobj) : Prop :=
  exists d, msg = PDict d /\ mem d (lit "role") = true /\ mem d (lit "content") = true.

(** ** [app.py]: what the page shows of a result

    The expressions of the result column and of the history sidebar that
    pick the risk level out of the risk assessment and choose the colours. *)

Module AppView.

Definition SEP : str := lit " - ".

(** [risk_assessment.split(" - ")[0] if " - " in risk_assessment else ""],
    the result column. *)
Definition risk_level (risk_assessment : str) : str :=
  if contains SEP risk_assessment then hd [] (split risk_assessment SEP) else [].

(** [item.get('risk_assessment', '').split(" - ")[0]], the sidebar. *)
Definition history_risk_level (risk_assessment : str) : str :=
  hd [] (split risk_assessment SEP).

(** [{"LOW": "green", "MEDIUM": "orange", "HIGH": "red"}.get(risk_level, "gray")] *)
Definition risk_color (risk_level : str) : str :=
  match
    get [ (lit "LOW", lit "green");
          (lit "MEDIUM", lit "orange");
          (lit "HIGH", lit "red") ] risk_level
  with
  | Some color => color
  | None => lit "gray"
  end.

(** ["green" if status == "SAFE" else "red"], for one scanned link. *)
Definition status_color (status : str) : str :=
  if str_eqb status (lit "SAFE") then lit "green" else lit "red".

End AppView.

(** The JSON body the form posts to the backend. *)
Definition form_payload (subject sender recipient body : str) : pyobj :=
  PDict [ (lit "subject", PStr subject);
          (lit "sender", PStr sender);
          (lit "recipient", PStr recipient);
          (lit "body", PStr body) ].

(** ** Further sample remote ends *)

(** A remote end whose completion has no text ([content] is [null]). *)
Definition world_null_content : world :=
  {| validators_url := None;
     session_post := fun _ _ =>
       Returns
         {| status_code := 200; text := [];
            json :=
              inr (PDict
                     [ (lit "choices",
                        PList
                          [ PDict
                              [ (lit "message",
                                 PDict [ (lit "role", PStr (lit "assistant"));
                                         (lit "content", PNone) ]) ] ]) ]) |};
     exc_str := fun _ => lit "'NoneType' object has no attribute 'strip'" |}.

(** A backend that answers the form with the given JSON value. *)
Definition world_backend (status : Z) (answer : result pyobj) : world :=
  {| validators_url := None;
     session_post := fun _ _ =>
       Returns {| status_code := status; text := []; json := answer |};
     exc_str := fun _ => lit "error" |}.

(** A validator that accepts the links under https. *)
Definition https_only (link : str) : bool := startswith link (lit "https://").

(** * Properties *)

(** ** The model on the scenarios of the specification *)

Example strip_example : strip (lit "  a b  ") = lit "a b".
Proof. reflexivity. Qed.

Example split_example :
  split (lit "a<think>b<think>") THINK = [lit "a"; lit "b"; []].
Proof. reflexivity. Qed.

Example replace_example :
  replace (lit "SUMMARY: see SUMMARY: above") SUMMARY [] = lit " see  above".
Proof. reflexivity. Qed.

Example str_of_int_example :
  str_of_int 404 = lit "404" /\ str_of_int 0 = lit "0" /\ str_of_int (-7) = lit "-7".
Proof. repeat split; reflexivity. Qed.

Example sub_tags_example :
  Re.sub_tags (lit "a<b>c<>d<<e>f>g<h") = lit "ac<>df>g<h".
Proof. reflexivity. Qed.

Example findall_example :
  Re.findall_url (lit "Click http://example.com/pay now https://a httpx:// http://")
  = [lit "http://example.com/pay"; lit "https://a"].
Proof. reflexivity. Qed.

(** Scenario A: a well-formed reply. *)
Example scenario_A :
  Main.summarize_email
    (world_replying
       (lit "SUMMARY: Invoice reminder" ++ LF ++ lit "RISK_LEVEL: LOW" ++ LF
          ++ lit "RISK_DETAILS: Routine business email"))
    sample_email []
  = (inr {| Main.summary := lit "Invoice reminder";
            Main.status := lit "success";
            Main.risk_assessment := lit "LOW - Routine business email";
            Main.error := None;
            Main.link_scan_results :=
              Some [(lit "http://example.com/pay", lit "UNKNOWN")] |},
     [HttpPost Main.API_URL (Main.payload sample_email)]).
Proof. reflexivity. Qed.

(** Scenario B: reasoning markup before the answer.  The text between the
    marker and the closing tag stays in front of "SUMMARY:", so that line
    does not start with the marker and the summary is the default. *)
Example scenario_B :
  Main.summarize_email
    (world_replying
       (lit "<think>reasoning...</think>SUMMARY: Wire transfer request" ++ LF
          ++ lit "RISK_LEVEL: HIGH" ++ LF
          ++ lit "RISK_DETAILS: Urgent financial request from unknown sender"))
    sample_email []
  = (inr {| Main.summary := lit "No summary available";
            Main.status := lit "success";
            Main.risk_assessment :=
              lit "HIGH - Urgent financial request from unknown sender";
            Main.error := None;
            Main.link_scan_results :=
              Some [(lit "http://example.com/pay", lit "UNKNOWN")] |},
     [HttpPost Main.API_URL (Main.payload sample_email)]).
Proof. reflexivity. Qed.

(** Scenario E: a read timeout, in the two backends. *)
Example scenario_E :
  Main.summarize_email world_read_timeout sample_email []
  = (inr (Main.failed (lit "Request failed: Read timed out.")),
     [HttpPost Main.API_URL (Main.payload sample_email)]) /\
  SampleSummary.summarize_email world_read_timeout sample_email' []
  = (inr (SampleSummary.failed (lit "Read timeout occurred. Please try again.")),
     [HttpPost SampleSummary.API_URL (SampleSummary.payload sample_email')]).
Proof. split; reflexivity. Qed.

(** Scenario F: an empty summary value. *)
Example scenario_F :
  parse_fields (content_lines empty_summary_reply)
  = [ (SUMMARY, lit "No summary available");
      (RISK_LEVEL, lit "LOW");
      (RISK_DETAILS, lit "ok") ].
Proof. reflexivity. Qed.

(** ** Strings *)

Lemma char_eqb_eq (a b : char) : char_eqb a b = true <-> a = b.
Proof. apply N.eqb_eq. Qed.

Lemma char_eqb_refl (a : char) : char_eqb a a = true.
Proof. apply N.eqb_refl. Qed.

Lemma char_eqb_neq (a b : char) : char_eqb a b = false <-> a <> b.
Proof. apply N.eqb_neq. Qed.

Lemma str_eqb_eq (a b : str) : str_eqb a b = true <-> a = b.
Proof.
  revert b; induction a as [|x a IH]; intros [|y b]; simpl; split;
    try congruence; try reflexivity.
  - rewrite andb_true_iff, char_eqb_eq, IH. intros [-> ->]; reflexivity.
  - intros H; injection H as -> ->.
    rewrite char_eqb_refl; simpl. apply IH; reflexivity.
Qed.

Lemma str_eqb_refl (a : str) : str_eqb a a = true.
Proof. apply str_eqb_eq; reflexivity. Qed.

Lemma str_eqb_neq (a b : str) : str_eqb a b = false <-> a <> b.
Proof.
  split.
  - intros H E. apply str_eqb_eq in E. congruence.
  - intros H. destruct (str_eqb a b) eqn:E; [|reflexivity].
    apply str_eqb_eq in E. contradiction.
Qed.

Lemma str_eqb_sym (a b : str) : str_eqb a b = str_eqb b a.
Proof.
  destruct (str_eqb a b) eqn:E.
  - apply str_eqb_eq in E; subst. symmetry; apply str_eqb_refl.
  - apply str_eqb_neq in E. symmetry. apply str_eqb_neq. congruence.
Qed.

Lemma startswith_iff (s p : str) :
  startswith s p = true <-> exists t, s = p ++ t.
Proof.
  revert s; induction p as [|x p IH]; intros s; simpl.
  - split; [intros _; exists s; reflexivity | reflexivity].
  - destruct s as [|c s].
    + split; [discriminate | intros [t H]; discriminate].
    + rewrite andb_true_iff, char_eqb_eq, IH. split.
      * intros [-> [t ->]]. exists t; reflexivity.
      * intros [t H]. injection H as -> ->. split; [reflexivity | exists t; reflexivity].
Qed.

Lemma startswith_app (p t : str) : startswith (p ++ t) p = true.
Proof. apply startswith_iff. exists t; reflexivity. Qed.

Lemma contains_iff (sub s : str) :
  contains sub s = true <-> exists pre post, s = pre ++ sub ++ post.
Proof.
  induction s as [|c s IH]; simpl.
  - rewrite orb_false_r, startswith_iff. split.
    + intros [t H]. exists [], t. exact H.
    + intros [pre [post H]]. destruct pre; [exists post; exact H | discriminate].
  - rewrite orb_true_iff, startswith_iff, IH. split.
    + intros [[t H] | [pre [post H]]].
      * exists [], t. exact H.
      * exists (c :: pre), post. simpl. rewrite H. reflexivity.
    + intros [pre [post H]]. destruct pre as [|x pre].
      * left. exists post. exact H.
      * right. injection H as -> ->. exists pre, post. reflexivity.
Qed.

Lemma lstrip_suffix (s : str) : exists ws, s = ws ++ lstrip s /\ forallb isspace ws = true.
Proof.
  induction s as [|c s [ws [E W]]]; simpl.
  - exists []. split; reflexivity.
  - destruct (isspace c) eqn:Hc.
    + exists (c :: ws). simpl. rewrite Hc, W. split; [congruence | reflexivity].
    + exists []. split; reflexivity.
Qed.

Lemma lstrip_head (s : str) :
  match lstrip s with [] => True | c :: _ => isspace c = false end.
Proof.
  induction s as [|c s IH]; simpl; [exact I|].
  destruct (isspace c) eqn:Hc; [exact IH | exact Hc].
Qed.

Lemma lstrip_fixed (s : str) :
  match s with [] => True | c :: _ => isspace c = false end -> lstrip s = s.
Proof. destruct s as [|c s]; simpl; [reflexivity | intros ->; reflexivity]. Qed.

Lemma lstrip_idem (s : str) : lstrip (lstrip s) = lstrip s.
Proof. apply lstrip_fixed, lstrip_head. Qed.

Lemma rstrip_prefix (s : str) : exists ws, s = rstrip s ++ ws /\ forallb isspace ws = true.
Proof.
  unfold rstrip. destruct (lstrip_suffix (rev s)) as [ws [E W]].
  exists (rev ws). split.
  - rewrite <- rev_app_distr, <- E, rev_involutive. reflexivity.
  - rewrite forallb_forall in *. intros x Hx. apply W, in_rev, Hx.
Qed.

Lemma rstrip_idem (s : str) : rstrip (rstrip s) = rstrip s.
Proof. unfold rstrip. rewrite rev_involutive, lstrip_idem. reflexivity. Qed.

(** Trimming on the right leaves the first character in place. *)
Lemma rstrip_head (s : str) :
  match s with [] => True | c :: _ => isspace c = false end ->
  match rstrip s with [] => True | c :: _ => isspace c = false end.
Proof.
  destruct s as [|c s]; [intros _; exact I|]. intros Hc.
  unfold rstrip. simpl rev.
  destruct (lstrip_suffix (rev s ++ [c])) as [ws [E W]].
  assert (H : exists u, lstrip (rev s ++ [c]) = u ++ [c]).
  { clear E W. induction (rev s) as [|x l IH]; simpl.
    - rewrite Hc. exists []. reflexivity.
    - destruct (isspace x); [exact IH|]. exists (x :: l). reflexivity. }
  destruct H as [u ->]. rewrite rev_app_distr. simpl. exact Hc.
Qed.

Lemma strip_idem (s : str) : strip (strip s) = strip s.
Proof.
  unfold strip. rewrite (lstrip_fixed (rstrip (lstrip s))).
  - apply rstrip_idem.
  - apply rstrip_head, lstrip_head.
Qed.

(** A trimmed string sits inside the original one. *)
Lemma strip_infix (s : str) : exists a b, s = a ++ strip s ++ b.
Proof.
  unfold strip. destruct (lstrip_suffix s) as [a [Ea _]].
  destruct (rstrip_prefix (lstrip s)) as [b [Eb _]].
  exists a, b. rewrite <- Eb. exact Ea.
Qed.

Lemma truthy_iff (s : str) : truthy s = true <-> s <> [].
Proof. destruct s; simpl; split; congruence. Qed.

(** ** Scans that pass over a match

    [split], [replace], [re.sub] and [re.findall] are written with a
    counter of characters still to skip; each resumes on the text after
    the match. *)

Lemma skipn_pred_cons {A} (n : nat) (c : A) (r : list A) :
  0 < n -> skipn (n - 1) r = skipn n (c :: r).
Proof. destruct n; [lia|]. intros _. simpl. rewrite Nat.sub_0_r. reflexivity. Qed.

Lemma split_aux_skip (sep : str) (k : nat) (cur s : str) :
  split_aux sep k cur s = split_aux sep 0 cur (skipn k s).
Proof.
  revert k; induction s as [|c r IH]; intros [|k]; try reflexivity.
  simpl. apply IH.
Qed.

Lemma split_aux_match (sep cur s : str) :
  sep <> [] -> startswith s sep = true ->
  split_aux sep 0 cur s = rev cur :: split_aux sep 0 [] (skipn (length sep) s).
Proof.
  intros Hsep H. destruct s as [|c r].
  - destruct sep; [contradiction | discriminate].
  - cbn [split_aux]. rewrite H, split_aux_skip. f_equal. f_equal.
    apply skipn_pred_cons. destruct sep; [contradiction | simpl; lia].
Qed.

Lemma split_aux_nonempty (sep : str) (k : nat) (cur s : str) :
  split_aux sep k cur s <> [].
Proof.
  revert k cur; induction s as [|c r IH]; intros k cur; simpl; [discriminate|].
  destruct k; [|apply IH]. destruct (startswith (c :: r) sep); [discriminate | apply IH].
Qed.

Lemma split_no_occurrence (sep s cur : str) :
  contains sep s = false -> split_aux sep 0 cur s = [rev cur ++ s].
Proof.
  revert cur; induction s as [|c r IH]; intros cur H.
  - simpl. rewrite app_nil_r. reflexivity.
  - simpl in H. apply orb_false_iff in H as [H1 H2].
    cbn [split_aux]. rewrite H1, IH by exact H2. simpl.
    rewrite <- app_assoc. reflexivity.
Qed.

Lemma last_cons_nonempty {A} (x : A) (l : list A) (d : A) :
  l <> [] -> last (x :: l) d = last l d.
Proof. destruct l; [contradiction | reflexivity]. Qed.

Lemma unbordered_no_overlap (m : str) :
  unbordered m = true ->
  forall d t t', 0 < d < length m -> skipn d m ++ t = m ++ t' -> False.
Proof.
  intros U d t t' Hd E.
  unfold unbordered in U. rewrite forallb_forall in U.
  specialize (U (length m - d)).
  assert (Hin : In (length m - d) (seq 1 (length m - 1))) by (apply in_seq; lia).
  apply U in Hin. apply negb_true_iff, str_eqb_neq in Hin. apply Hin.
  replace (length m - (length m - d)) with d by lia.
  apply (f_equal (firstn (length m - d))) in E.
  rewrite firstn_app in E.
  rewrite length_skipn, Nat.sub_diag in E. simpl in E.
  rewrite app_nil_r, firstn_all2 in E by (rewrite length_skipn; lia).
  rewrite firstn_app in E.
  replace (length m - d - length m) with 0 in E by lia.
  simpl in E. rewrite app_nil_r in E. symmetry. exact E.
Qed.

(** Two occurrences of an unbordered marker: the second one starts at
    or after the end of the first. *)
Lemma unbordered_second_occurrence (m pre post r : str) :
  unbordered m = true -> pre <> [] ->
  pre ++ m ++ post = m ++ r ->
  exists pre', pre = m ++ pre' /\ r = pre' ++ m ++ post.
Proof.
  intros U Hpre E.
  destruct (Nat.lt_ge_cases (length pre) (length m)) as [Hlt | Hge].
  - exfalso. apply (@unbordered_no_overlap m U (length pre) r post).
    + destruct pre; [contradiction | simpl in *; lia].
    + apply (f_equal (skipn (length pre))) in E.
      rewrite skipn_app, skipn_all, Nat.sub_diag in E. simpl in E.
      rewrite skipn_app in E.
      replace (length pre - length m) with 0 in E by lia. simpl in E.
      symmetry. exact E.
  - assert (Ef := f_equal (firstn (length m)) E).
    rewrite firstn_app in Ef.
    replace (length m - length pre) with 0 in Ef by lia. simpl in Ef.
    rewrite app_nil_r, firstn_app, Nat.sub_diag, firstn_all in Ef.
    simpl in Ef. rewrite app_nil_r in Ef.
    exists (skipn (length m) pre). split.
    + rewrite <- Ef at 1. symmetry. apply firstn_skipn.
    + apply (f_equal (skipn (length m))) in E.
      rewrite skipn_app in E.
      replace (length m - length pre) with 0 in E by lia. simpl in E.
      rewrite skipn_app, skipn_all, Nat.sub_diag in E. simpl in E.
      symmetry. exact E.
Qed.

(** The last piece of a split is the text after the last occurrence of
    the separator. *)
Lemma split_last (m : str) :
  unbordered m = true -> m <> [] ->
  forall n s cur pre post,
    length s <= n ->
    s = pre ++ m ++ post -> contains m post = false ->
    last (split_aux m 0 cur s) [] = post.
Proof.
  intros U Hm. induction n as [|n IH]; intros s cur pre post Hn E Hpost.
  - subst s. rewrite !length_app in Hn. destruct m; [contradiction | simpl in Hn; lia].
  - destruct (startswith s m) eqn:Hs.
    + rewrite split_aux_match by assumption.
      rewrite last_cons_nonempty by apply split_aux_nonempty.
      apply startswith_iff in Hs as [r Hr].
      destruct pre as [|p pre].
      * simpl in E. rewrite E in Hr. apply app_inv_head in Hr. subst r.
        rewrite E, skipn_app, skipn_all, Nat.sub_diag. simpl.
        rewrite split_no_occurrence by exact Hpost. reflexivity.
      * rewrite Hr in E. symmetry in E.
        apply unbordered_second_occurrence in E as [pre' [E1 E2]];
          [|exact U|discriminate].
        rewrite Hr, skipn_app, skipn_all, Nat.sub_diag. simpl.
        apply (IH r [] pre' post); [|exact E2|exact Hpost].
        rewrite Hr, length_app in Hn. destruct m; [contradiction | simpl in Hn; lia].
    + destruct pre as [|p pre].
      * simpl in E. subst s. rewrite startswith_app in Hs. discriminate.
      * subst s. simpl. simpl in Hs. rewrite Hs.
        apply (IH _ _ pre post); [simpl in Hn; lia | reflexivity | exact Hpost].
Qed.

(** ** Tags *)

Lemma no_gt_iff (s : str) : no_gt s = true <-> ~ In (ch ">") s.
Proof.
  induction s as [|c r IH]; simpl.
  - split; [intros _ [] | reflexivity].
  - rewrite andb_true_iff, negb_true_iff, char_eqb_neq, IH. split.
    + intros [H1 H2] [H | H]; [congruence | contradiction].
    + intros H. split; [intros E; apply H; left; exact E | intros E; apply H; right; exact E].
Qed.

Lemma find_gt_none (s : str) : Re.find_gt s = None <-> no_gt s = true.
Proof.
  induction s as [|c r IH]; [split; reflexivity|].
  cbn [Re.find_gt no_gt]. destruct (char_eqb c (ch ">")); simpl.
  - split; discriminate.
  - destruct (Re.find_gt r); simpl.
    + split; [discriminate|]. intros H. apply IH in H. discriminate.
    + split; [intros _; apply IH; reflexivity | reflexivity].
Qed.

Lemma find_gt_zero (s : str) : Re.find_gt s = Some 0 <-> head_gt s = true.
Proof.
  destruct s as [|c r]; [split; discriminate|].
  cbn [Re.find_gt head_gt]. destruct (char_eqb c (ch ">")); [split; reflexivity|].
  destruct (Re.find_gt r); simpl; split; discriminate.
Qed.

Lemma match_tag_none (c : char) (r : str) :
  Re.match_tag (c :: r) = None <->
  negb (char_eqb c (ch "<")) || no_gt r || head_gt r = true.
Proof.
  unfold Re.match_tag. destruct (char_eqb c (ch "<")); simpl.
  - rewrite orb_true_iff, <- find_gt_none, <- find_gt_zero.
    destruct (Re.find_gt r) as [[|k]|]; split; try tauto; try discriminate.
    + intros [H | H]; discriminate.
  - split; reflexivity.
Qed.

Lemma tag_free_app_r (a b : str) : tag_free (a ++ b) = true -> tag_free b = true.
Proof.
  induction a as [|c a IH]; simpl; [trivial|].
  rewrite andb_true_iff. intros [_ H]. apply IH, H.
Qed.

Lemma no_gt_app (a b : str) : no_gt (a ++ b) = no_gt a && no_gt b.
Proof.
  induction a as [|c a IH]; simpl; [reflexivity|].
  rewrite IH, andb_assoc. reflexivity.
Qed.

Lemma tag_free_app_l (a b : str) : tag_free (a ++ b) = true -> tag_free a = true.
Proof.
  induction a as [|c a IH]; simpl; [reflexivity|].
  rewrite !andb_true_iff. intros [H1 H2]. split; [|apply IH, H2].
  rewrite !orb_true_iff in *. destruct H1 as [[H | H] | H].
  - left; left; exact H.
  - left; right. rewrite no_gt_app in H. apply andb_true_iff in H. apply H.
  - destruct a as [|x a]; [left; right; reflexivity | right; exact H].
Qed.

Lemma tag_free_strip (s : str) : tag_free s = true -> tag_free (strip s) = true.
Proof.
  destruct (strip_infix s) as [a [b E]]. intros H. rewrite E in H.
  apply tag_free_app_r, tag_free_app_l in H. exact H.
Qed.

(** A string without a place where the pattern matches holds no tag. *)
Lemma tag_free_sound (s : str) : tag_free s = true -> ~ has_tag s.
Proof.
  intros H (pre & inner & post & E & Hne & Hall). subst s.
  apply tag_free_app_r in H. simpl in H.
  apply andb_true_iff in H as [H _]. simpl in H.
  rewrite orb_true_iff in H. destruct H as [H | H].
  - apply no_gt_iff in H. apply H, in_or_app. right; left; reflexivity.
  - destruct inner as [|x inner]; [contradiction|].
    simpl in H. apply char_eqb_eq in H.
    inversion Hall; subst. contradiction.
Qed.

Lemma sub_tags_aux_skip (k : nat) (s : str) :
  Re.sub_tags_aux k s = Re.sub_tags_aux 0 (skipn k s).
Proof.
  revert k; induction s as [|c r IH]; intros [|k]; try reflexivity.
  simpl. apply IH.
Qed.

Lemma sub_tags_aux_in (x : char) (k : nat) (s : str) :
  In x (Re.sub_tags_aux k s) -> In x s.
Proof.
  revert k; induction s as [|c r IH]; intros k; [trivial|].
  cbn [Re.sub_tags_aux]. destruct k as [|k].
  - destruct (Re.match_tag (c :: r)) as [n|].
    + intros H. right. apply (IH _ H).
    + intros [H | H]; [left; exact H | right; apply (IH _ H)].
  - intros H. right. apply (IH _ H).
Qed.

Lemma sub_tags_aux_tag_free (k : nat) (s : str) :
  tag_free (Re.sub_tags_aux k s) = true.
Proof.
  revert k; induction s as [|c r IH]; intros k; [reflexivity|].
  cbn [Re.sub_tags_aux]. destruct k as [|k]; [|apply IH].
  destruct (Re.match_tag (c :: r)) as [n|] eqn:M; [apply IH|].
  cbn [tag_free]. rewrite IH, andb_true_r.
  apply match_tag_none in M. rewrite !orb_true_iff in *.
  destruct M as [[M | M] | M].
  - left; left; exact M.
  - left; right. apply no_gt_iff. intros H. apply sub_tags_aux_in in H.
    apply no_gt_iff in M. contradiction.
  - right. destruct r as [|x r]; [discriminate|].
    simpl in M. cbn [Re.sub_tags_aux].
    replace (Re.match_tag (x :: r)) with (@None nat).
    + simpl. exact M.
    + unfold Re.match_tag. apply char_eqb_eq in M. subst x. reflexivity.
Qed.

(** [re.sub] at a match: the text after it. *)
Lemma sub_tags_match (s : str) (n : nat) :
  Re.match_tag s = Some n -> Re.sub_tags s = Re.sub_tags (skipn n s).
Proof.
  intros M. unfold Re.sub_tags. destruct s as [|c r]; [discriminate|].
  cbn [Re.sub_tags_aux]. rewrite M, sub_tags_aux_skip. f_equal.
  apply skipn_pred_cons. unfold Re.match_tag in M.
  destruct (char_eqb c (ch "<")); [|discriminate].
  destruct (Re.find_gt r) as [[|k]|]; try discriminate.
  injection M as <-. lia.
Qed.

(** Text without tags goes through [re.sub] unchanged. *)
Lemma sub_tags_fixed (s : str) : tag_free s = true -> Re.sub_tags s = s.
Proof.
  unfold Re.sub_tags. induction s as [|c r IH]; [reflexivity|].
  cbn [tag_free Re.sub_tags_aux]. rewrite andb_true_iff. intros [H1 H2].
  apply match_tag_none in H1. rewrite H1, IH by exact H2. reflexivity.
Qed.

Lemma replace_aux_skip (old new : str) (k : nat) (s : str) :
  replace_aux old new k s = replace_aux old new 0 (skipn k s).
Proof.
  revert k; induction s as [|c r IH]; intros [|k]; try reflexivity.
  simpl. apply IH.
Qed.

(** [replace] at a match: the replacement, then the text after it. *)
Lemma replace_match (s old new : str) :
  old <> [] -> startswith s old = true ->
  replace s old new = new ++ replace (skipn (length old) s) old new.
Proof.
  intros Ho H. unfold replace. destruct old as [|x old]; [contradiction|].
  destruct s as [|c r]; [discriminate|].
  cbn [replace_aux]. rewrite H, replace_aux_skip. f_equal. f_equal.
  apply skipn_pred_cons. simpl. lia.
Qed.

Lemma replace_aux_in (old new : str) (x : char) (k : nat) (s : str) :
  In x (replace_aux old new k s) -> In x s \/ In x new.
Proof.
  revert k; induction s as [|c r IH]; intros k; [intros []|].
  cbn [replace_aux]. destruct k as [|k].
  - destruct (startswith (c :: r) old).
    + intros H. apply in_app_or in H as [H | H]; [right; exact H|].
      destruct (IH _ H); [left; right; assumption | right; assumption].
    + intros [H | H]; [left; left; exact H|].
      destruct (IH _ H); [left; right; assumption | right; assumption].
  - intros H. destruct (IH _ H); [left; right; assumption | right; assumption].
Qed.

Lemma replace_crlf_tag_free (k : nat) (s : str) :
  tag_free s = true -> tag_free (replace_aux CRLF LF k s) = true.
Proof.
  revert k; induction s as [|c r IH]; intros k; [reflexivity|].
  cbn [tag_free]. rewrite andb_true_iff. intros [H1 H2].
  cbn [replace_aux]. destruct k as [|k]; [|apply IH, H2].
  destruct (startswith (c :: r) CRLF) eqn:S.
  - simpl. apply IH, H2.
  - cbn [tag_free]. rewrite IH, andb_true_r by exact H2.
    rewrite !orb_true_iff in *. destruct H1 as [[H | H] | H].
    + left; left; exact H.
    + left; right. apply no_gt_iff. intros Hin.
      apply replace_aux_in in Hin. apply no_gt_iff in H.
      destruct Hin as [Hin | Hin]; [contradiction|].
      simpl in Hin. destruct Hin as [Hin | []]. discriminate.
    + right. destruct r as [|x r]; [discriminate|].
      simpl in H. apply char_eqb_eq in H. subst x. reflexivity.
Qed.

Lemma clean_response_tag_free (content : str) :
  tag_free (clean_response content) = true.
Proof.
  unfold clean_response. apply tag_free_strip.
  unfold replace, CRLF. apply replace_crlf_tag_free.
  apply sub_tags_aux_tag_free.
Qed.

Lemma no_gt_false_split (s : str) :
  no_gt s = false ->
  exists inner post, s = inner ++ ch ">" :: post /\ Forall (fun c => c <> ch ">") inner.
Proof.
  induction s as [|c r IH]; [discriminate|].
  cbn [no_gt]. destruct (char_eqb c (ch ">")) eqn:E; simpl.
  - intros _. apply char_eqb_eq in E. subst c.
    exists [], r. split; [reflexivity | constructor].
  - intros H. destruct (IH H) as (inner & post & -> & F).
    exists (c :: inner), post. split; [reflexivity|].
    constructor; [apply char_eqb_neq, E | exact F].
Qed.

Lemma tag_free_complete (s : str) : tag_free s = false -> has_tag s.
Proof.
  induction s as [|c r IH]; [discriminate|].
  cbn [tag_free]. rewrite andb_false_iff. intros [H | H].
  - rewrite !orb_false_iff, negb_false_iff, char_eqb_eq in H.
    destruct H as [[-> Hn] Hh].
    destruct (no_gt_false_split r Hn) as (inner & post & -> & F).
    exists [], inner, post. split; [reflexivity|]. split; [|exact F].
    destruct inner; [|discriminate]. cbn [app head_gt] in Hh.
    rewrite char_eqb_refl in Hh. discriminate.
  - destruct (IH H) as (pre & inner & post & -> & Hne & F).
    exists (c :: pre), inner, post. repeat split; assumption.
Qed.

(** ** Lines and fields *)

Lemma join_cons (sep x : str) (l : list str) :
  l <> [] -> join sep (x :: l) = x ++ sep ++ join sep l.
Proof. destruct l; [contradiction | reflexivity]. Qed.

(** Joining the pieces of a split with the separator gives the text back. *)
Lemma join_split_aux (sep : str) :
  sep <> [] ->
  forall n s cur, length s <= n -> join sep (split_aux sep 0 cur s) = rev cur ++ s.
Proof.
  intros Hsep. induction n as [|n IH]; intros s cur Hn.
  - destruct s; [|simpl in Hn; lia]. simpl. rewrite app_nil_r. reflexivity.
  - destruct s as [|c r]; [simpl; rewrite app_nil_r; reflexivity|].
    destruct (startswith (c :: r) sep) eqn:S.
    + rewrite split_aux_match by assumption.
      rewrite join_cons by apply split_aux_nonempty.
      apply startswith_iff in S as [t E]. rewrite E.
      rewrite skipn_app, skipn_all, Nat.sub_diag. simpl skipn. simpl app at 1.
      rewrite IH.
      * reflexivity.
      * apply (f_equal (@length _)) in E. rewrite length_app in E.
        destruct sep; [contradiction | simpl in *; lia].
    + cbn [split_aux]. rewrite S, IH by (simpl in Hn; lia).
      simpl. rewrite <- app_assoc. reflexivity.
Qed.

Lemma split_lf_pieces (s cur : str) :
  ~ In 10%N cur -> Forall (fun piece => ~ In 10%N piece) (split_aux LF 0 cur s).
Proof.
  revert cur; induction s as [|c r IH]; intros cur H.
  - constructor; [|constructor]. intros Hin. apply H, in_rev, Hin.
  - cbn [split_aux]. unfold LF at 1. cbn [startswith].
    destruct (char_eqb 10%N c) eqn:E.
    + simpl. constructor.
      * intros Hin. apply H, in_rev, Hin.
      * apply IH. intros [].
    + rewrite andb_false_l. apply IH. intros [Hin | Hin]; [|contradiction].
      apply char_eqb_neq in E. congruence.
Qed.

Lemma content_lines_trimmed (content : str) :
  Forall (fun line => line <> [] /\ strip line = line) (content_lines content).
Proof.
  unfold content_lines. apply Forall_forall. intros line Hin.
  apply in_map_iff in Hin as (piece & <- & Hp).
  apply filter_In in Hp as [_ Hp]. split.
  - apply truthy_iff, Hp.
  - apply strip_idem.
Qed.

Lemma last_cons_default {A} (a : A) (l : list A) (d : A) :
  last (a :: l) d = last l a.
Proof.
  revert a d; induction l as [|b l IH]; intros a d; [reflexivity|].
  change (last (a :: b :: l) d) with (last (b :: l) d).
  rewrite (IH b d), (IH b a). reflexivity.
Qed.

(** One line against the three fields: each entry is overwritten by a
    non-empty match and kept otherwise. *)
Lemma process_line_fields (line vs vl vd : str) :
  let upd field v :=
    if nonempty_match field line then field_value field line else v in
  process_line [(SUMMARY, vs); (RISK_LEVEL, vl); (RISK_DETAILS, vd)] line =
  [(SUMMARY, upd SUMMARY vs); (RISK_LEVEL, upd RISK_LEVEL vl);
   (RISK_DETAILS, upd RISK_DETAILS vd)].
Proof.
  unfold process_line, keys, nonempty_match, field_value, update_field.
  cbn [map fst fold_left].
  destruct (startswith line SUMMARY), (startswith line RISK_LEVEL),
    (startswith line RISK_DETAILS);
    destruct (truthy (strip (replace line SUMMARY []))),
      (truthy (strip (replace line RISK_LEVEL []))),
      (truthy (strip (replace line RISK_DETAILS [])));
    reflexivity.
Qed.

Lemma fold_process_line (lines : list str) :
  forall vs vl vd,
    fold_left process_line lines
      [(SUMMARY, vs); (RISK_LEVEL, vl); (RISK_DETAILS, vd)] =
    [(SUMMARY, last_nonempty_match SUMMARY vs lines);
     (RISK_LEVEL, last_nonempty_match RISK_LEVEL vl lines);
     (RISK_DETAILS, last_nonempty_match RISK_DETAILS vd lines)].
Proof.
  unfold last_nonempty_match.
  induction lines as [|line lines IH]; intros vs vl vd; [reflexivity|].
  cbn [fold_left]. rewrite process_line_fields. cbv zeta. rewrite IH.
  cbn [filter].
  destruct (nonempty_match SUMMARY line), (nonempty_match RISK_LEVEL line),
    (nonempty_match RISK_DETAILS line);
    cbn [map]; rewrite ?last_cons_default; reflexivity.
Qed.

Lemma parse_fields_spec (lines : list str) :
  parse_fields lines =
  [(SUMMARY, last_nonempty_match SUMMARY (lit "No summary available") lines);
   (RISK_LEVEL, last_nonempty_match RISK_LEVEL (lit "UNKNOWN") lines);
   (RISK_DETAILS, last_nonempty_match RISK_DETAILS (lit "No details provided") lines)].
Proof. apply fold_process_line. Qed.

Lemma parse_fields_app (lines : list str) (line : str) :
  parse_fields (lines ++ [line]) = process_line (parse_fields lines) line.
Proof. unfold parse_fields. rewrite fold_left_app. reflexivity. Qed.

(** ** Removing every occurrence of a marker *)

Lemma covered_iff (m s : str) (i : nat) :
  covered m s i = true <->
  exists j, j <= i /\ i < j + length m /\ occurs_at m s j = true.
Proof.
  unfold covered. rewrite existsb_exists. split.
  - intros (j & Hin & H). apply in_seq in Hin.
    apply andb_true_iff in H as [H1 H2]. apply Nat.ltb_lt in H2.
    exists j. repeat split; [lia | exact H2 | exact H1].
  - intros (j & H1 & H2 & H3). exists j. split; [apply in_seq; lia|].
    rewrite H3. apply Nat.ltb_lt in H2. rewrite H2. reflexivity.
Qed.

Lemma skipn_S_of_cons {A} (n : nat) (s : list A) (c : A) (r : list A) :
  skipn n s = c :: r -> skipn (S n) s = r.
Proof.
  revert s; induction n as [|n IH]; intros s H.
  - simpl in H. subst s. reflexivity.
  - destruct s as [|x s]; [discriminate|]. simpl in H. apply IH in H. exact H.
Qed.

Lemma skipn_skipn_add {A} (a b : nat) (s : list A) :
  skipn (a + b) s = skipn a (skipn b s).
Proof.
  revert s; induction b as [|b IH]; intros s.
  - rewrite Nat.add_0_r. reflexivity.
  - destruct s as [|x s]; [rewrite !skipn_nil; reflexivity|].
    rewrite Nat.add_succ_r. simpl. apply IH.
Qed.

(** Two occurrences of an unbordered marker do not overlap. *)
Lemma occurrences_apart (m s : str) (n j : nat) :
  unbordered m = true ->
  occurs_at m s n = true -> occurs_at m s j = true ->
  n < j -> n + length m <= j.
Proof.
  intros U Hn Hj Hlt.
  destruct (Nat.le_gt_cases (n + length m) j) as [|Hov]; [assumption|].
  exfalso. unfold occurs_at in *.
  apply startswith_iff in Hn as [t Hn]. apply startswith_iff in Hj as [t' Hj].
  replace j with ((j - n) + n) in Hj by lia.
  rewrite skipn_skipn_add, Hn, skipn_app in Hj.
  replace (j - n - length m) with 0 in Hj by lia. simpl in Hj.
  apply (@unbordered_no_overlap m U (j - n) t t'); [lia | exact Hj].
Qed.

Lemma replace_aux_substitute (m new s : str) :
  unbordered m = true -> m <> [] ->
  forall suf n k,
    skipn n s = suf ->
    (forall j, j < n -> occurs_at m s j = true -> j + length m <= n + k) ->
    (forall i, n <= i < n + k -> covered m s i = true /\ occurs_at m s i = false) ->
    replace_aux m new k suf = substitute_from m new s n suf.
Proof.
  intros U Hm.
  assert (Hlen : 0 < length m) by (destruct m; [contradiction | simpl; lia]).
  induction suf as [|c r IH]; intros n k Hs Hinv Hskip; [reflexivity|].
  assert (Hr := skipn_S_of_cons n s c r Hs).
  cbn [replace_aux substitute_from]. destruct k as [|k].
  - destruct (startswith (c :: r) m) eqn:S.
    + assert (Hocc : occurs_at m s n = true) by (unfold occurs_at; rewrite Hs; exact S).
      rewrite Hocc. f_equal. apply IH; [exact Hr | |].
      * intros j Hj Hoj. destruct (Nat.eq_dec j n) as [-> | Hne]; [lia|].
        specialize (Hinv j ltac:(lia) Hoj). lia.
      * intros i Hi. split.
        -- apply covered_iff. exists n. repeat split; [lia | lia | exact Hocc].
        -- destruct (occurs_at m s i) eqn:Oi; [|reflexivity].
           pose proof (occurrences_apart m s n i U Hocc Oi ltac:(lia)). lia.
    + assert (Hocc : occurs_at m s n = false) by (unfold occurs_at; rewrite Hs; exact S).
      assert (Hc : covered m s n = false).
      { destruct (covered m s n) eqn:C; [|reflexivity]. exfalso.
        apply covered_iff in C as (j & H1 & H2 & H3).
        destruct (Nat.eq_dec j n) as [-> | Hne]; [congruence|].
        specialize (Hinv j ltac:(lia) H3). lia. }
      rewrite Hocc, Hc. f_equal. apply IH; [exact Hr | | intros i Hi; lia].
      intros j Hj Hoj. destruct (Nat.eq_dec j n) as [-> | Hne]; [congruence|].
      specialize (Hinv j ltac:(lia) Hoj). lia.
  - destruct (Hskip n ltac:(lia)) as [Hc Hocc]. rewrite Hocc, Hc.
    apply IH; [exact Hr | |].
    + intros j Hj Hoj. destruct (Nat.eq_dec j n) as [-> | Hne]; [congruence|].
      specialize (Hinv j ltac:(lia) Hoj). lia.
    + intros i Hi. apply Hskip. lia.
Qed.

(** For a marker that cannot overlap itself, [replace] substitutes every
    occurrence. *)
Lemma replace_substitute_occurrences (m new s : str) :
  unbordered m = true -> m <> [] ->
  replace s m new = substitute_occurrences m new s.
Proof.
  intros U Hm. unfold replace, substitute_occurrences.
  destruct m as [|x m]; [contradiction|].
  apply replace_aux_substitute; try assumption; try reflexivity.
  - intros j Hj. lia.
  - intros i Hi. lia.
Qed.

Lemma occurs_covered (m s : str) (i : nat) :
  m <> [] -> occurs_at m s i = true -> covered m s i = true.
Proof.
  intros Hm H. apply covered_iff. exists i. repeat split; [lia | | exact H].
  destruct m; [contradiction | simpl; lia].
Qed.

Lemma substitute_from_nil (m whole : str) :
  m <> [] ->
  forall s i, substitute_from m [] whole i s = keep_uncovered (covered m whole) i s.
Proof.
  intros Hm. induction s as [|c r IH]; intros i; [reflexivity|].
  cbn [substitute_from keep_uncovered]. rewrite !IH.
  destruct (occurs_at m whole i) eqn:O; [|reflexivity].
  rewrite (occurs_covered m whole i Hm O). reflexivity.
Qed.

(** With the empty replacement, every occurrence is removed. *)
Lemma replace_delete_occurrences (m s : str) :
  unbordered m = true -> m <> [] ->
  replace s m [] = delete_occurrences m s.
Proof.
  intros U Hm. rewrite replace_substitute_occurrences by assumption.
  apply substitute_from_nil, Hm.
Qed.

Lemma required_fields_unbordered (field : str) :
  In field required_fields -> unbordered field = true /\ field <> [].
Proof.
  intros [<- | [<- | [<- | []]]]; split; try reflexivity; discriminate.
Qed.

(** ** The handlers *)

Lemma bind_lift {A B} (r : result A) (k : A -> io B) (log : list event) :
  bind (lift r) k log =
  match r with
  | inr a => k a log
  | inl e => (inl e, log)
  end.
Proof. unfold bind, lift. destruct r; reflexivity. Qed.

Lemma reply_text_ok (envelope : pyobj) (raw : str) :
  envelope_content envelope = Some raw ->
  reply_text envelope = inr (strip raw) /\
  Main.validate_response envelope = inr None.
Proof.
  unfold envelope_content, reply_text, Main.validate_response.
  unfold py_contains, py_getitem, getitem, mem.
  destruct envelope as [| | | | |l|d]; try discriminate.
  cbn [is_dict negb rbind].
  destruct (get d (lit "choices")) as [[| | | | |[|[| | | | |?|first] ?]|?]|];
    try discriminate.
  cbn [is_dict is_list py_truthy negb py_getitem0 rbind].
  destruct (get first (lit "message")) as [[| | | | |?|message]|]; try discriminate.
  cbn [is_dict is_list py_truthy negb py_getitem0 rbind].
  destruct (get message (lit "content")) as [[| | | |content|?|?]|]; try discriminate.
  intros H; injection H as ->. split; reflexivity.
Qed.

Lemma reply_text_bad (envelope : pyobj) :
  envelope_content envelope = None -> exists e, reply_text envelope = inl e.
Proof.
  unfold envelope_content, reply_text.
  unfold py_contains, py_getitem, getitem, mem.
  destruct envelope as [| | | | |l|d]; try (intros _; eexists; reflexivity).
  cbn [rbind].
  destruct (get d (lit "choices")) as [[| | | |[|]|[|[| | | |[|]|?|first] ?]|?]|];
    try (intros _; eexists; reflexivity).
  cbn [py_getitem0 rbind].
  destruct (get first (lit "message")) as [[| | | | |?|message]|];
    try (intros _; eexists; reflexivity).
  cbn [py_getitem0 rbind].
  destruct (get message (lit "content")) as [[| | | |content|?|?]|];
    try (intros _; eexists; reflexivity).
  discriminate.
Qed.

(** Every message of the envelope validator is a non-empty text. *)
Lemma validate_response_message (envelope : pyobj) (msg : str) :
  Main.validate_response envelope = inr (Some msg) -> truthy msg = true.
Proof.
  unfold Main.validate_response.
  repeat match goal with
         | |- context [rbind ?m _] => destruct m as [?|?]; cbn [rbind]
         | |- context [if ?b then _ else _] => destruct b
         end;
    try discriminate; intros H; injection H as <-; reflexivity.
Qed.

Lemma io_reply_text {B} (envelope : pyobj) (k : str -> io B) (log : list event) :
  (choices <- lift (py_getitem envelope (lit "choices")) ;;
   first <- lift (py_getitem0 choices) ;;
   message <- lift (py_getitem first (lit "message")) ;;
   content <- lift (py_getitem message (lit "content")) ;;
   raw_content <- lift (py_strip content) ;;
   k raw_content) log
  = bind (lift (reply_text envelope)) k log.
Proof.
  unfold reply_text. rewrite !bind_lift.
  destruct (py_getitem envelope (lit "choices")) as [e|choices]; [reflexivity|].
  cbn [rbind]. rewrite bind_lift.
  destruct (py_getitem0 choices) as [e|first]; [reflexivity|].
  cbn [rbind]. rewrite bind_lift.
  destruct (py_getitem first (lit "message")) as [e|message]; [reflexivity|].
  cbn [rbind]. rewrite bind_lift.
  destruct (py_getitem message (lit "content")) as [e|content]; [reflexivity|].
  cbn [rbind]. rewrite bind_lift. reflexivity.
Qed.

Lemma main_parsed (links : dict str) (content : str) (log : list event) :
  (if negb (has_required_fields content) then
     ret {| Main.summary := lit "Error: Invalid response format";
            Main.status := lit "error";
            Main.risk_assessment := lit "UNKNOWN - Response format error";
            Main.error := Some (lit "API response missing required fields");
            Main.link_scan_results := None |}
   else
     let lines := content_lines content in
     let parsed_data := parse_fields lines in
     risk_level <- lift (getitem parsed_data RISK_LEVEL KeyError) ;;
     let risk_level := normalize_risk_level risk_level in
     summary <- lift (getitem parsed_data SUMMARY KeyError) ;;
     risk_details <- lift (getitem parsed_data RISK_DETAILS KeyError) ;;
     ret {| Main.summary := summary;
            Main.status := lit "success";
            Main.risk_assessment := risk_level ++ lit " - " ++ risk_details;
            Main.error := None;
            Main.link_scan_results := Some links |}) log
  = (inr (main_reply links content), log).
Proof.
  unfold main_reply. destruct (has_required_fields content); [|reflexivity].
  cbn [negb]. cbv zeta. rewrite parse_fields_spec. reflexivity.
Qed.

(** [main.py]: the handler returns a reply whatever the remote end does,
    after exactly one POST; the reply is described case by case. *)
Lemma main_run (w : world) (email : Main.EmailRequest) (log : list event) :
  exists r,
    Main.summarize_email w email log =
      (inr r, log ++ [HttpPost Main.API_URL (Main.payload email)]) /\
    match session_post w Main.API_URL (Main.payload email) with
    | Raises e => r = Main.failed (lit "Request failed: " ++ exc_str w e)
    | Returns resp =>
        if (status_code resp =? 200)%Z then
          match json resp with
          | inl e => r = Main.failed (lit "Request failed: " ++ exc_str w e)
          | inr envelope =>
              match envelope_content envelope with
              | Some raw =>
                  r = main_reply
                        (Main.scan_links (validators_url w)
                           (Main.extract_links (Main.body email)))
                        (clean_response (strip raw))
              | None => exists msg, truthy msg = true /\ r = Main.failed msg
              end
          end
        else
          r = Main.failed
                (lit "API Error: " ++ str_of_int (status_code resp)
                   ++ lit " - " ++ text resp)
    end.
Proof.
  unfold Main.summarize_email.
  rewrite bind_lift.
  change (Main.validate_payload (Main.payload email)) with (@inr exn bool true).
  cbn [negb]. unfold try_except, bind at 1, post.
  destruct (session_post w Main.API_URL (Main.payload email)) as [e|resp].
  { eexists. split; reflexivity. }
  destruct (status_code resp =? 200)%Z.
  2:{ eexists. split; reflexivity. }
  rewrite bind_lift. destruct (json resp) as [e|envelope].
  { eexists. split; reflexivity. }
  rewrite bind_lift.
  destruct (envelope_content envelope) as [raw|] eqn:E.
  - destruct (reply_text_ok _ _ E) as [Ht Hv]. rewrite Hv.
    rewrite io_reply_text, bind_lift, Ht, main_parsed.
    eexists. split; reflexivity.
  - destruct (Main.validate_response envelope) as [e|[msg|]] eqn:V.
    + eexists. split; [reflexivity|]. eexists. split; [|reflexivity]. reflexivity.
    + rewrite (validate_response_message _ _ V).
      eexists. split; [reflexivity|]. exists msg. split; [|reflexivity].
      apply (validate_response_message _ _ V).
    + destruct (reply_text_bad _ E) as [e He].
      rewrite io_reply_text, bind_lift, He.
      eexists. split; [reflexivity|]. eexists. split; [|reflexivity]. reflexivity.
Qed.

Lemma sample_parsed (content : str) (log : list event) :
  (if negb (truthy content) then
     ret {| SampleSummary.summary := lit "Error: Empty response";
            SampleSummary.status := lit "error";
            SampleSummary.risk_assessment := lit "UNKNOWN - Empty response";
            SampleSummary.error := Some (lit "API returned empty or invalid response") |}
   else
   if negb (has_required_fields content) then
     ret {| SampleSummary.summary := lit "Error: Invalid response format";
            SampleSummary.status := lit "error";
            SampleSummary.risk_assessment := lit "UNKNOWN - Response format error";
            SampleSummary.error := Some (lit "API response missing required fields") |}
   else
     let lines := content_lines content in
     let parsed_data := parse_fields lines in
     risk_level <- lift (getitem parsed_data RISK_LEVEL KeyError) ;;
     let risk_level := normalize_risk_level risk_level in
     summary <- lift (getitem parsed_data SUMMARY KeyError) ;;
     risk_details <- lift (getitem parsed_data RISK_DETAILS KeyError) ;;
     ret {| SampleSummary.summary := summary;
            SampleSummary.status := lit "success";
            SampleSummary.risk_assessment := risk_level ++ lit " - " ++ risk_details;
            SampleSummary.error := None |}) log
  = (inr (sample_reply content), log).
Proof.
  unfold sample_reply. destruct (truthy content); [|reflexivity].
  destruct (has_required_fields content); [|reflexivity].
  cbn [negb]. cbv zeta. rewrite parse_fields_spec. reflexivity.
Qed.

Lemma sample_exception_message_truthy (w : world) (e : exn) :
  truthy (sample_exception_message w e) = true.
Proof. destruct e as [[|]| | | | | |]; reflexivity. Qed.

Lemma sample_handler (w : world) (e : exn) (log : list event) :
  match e with
  | Timeout connect =>
      let timeout_type := if connect then lit "connection" else lit "read" in
      let error_msg :=
        capitalize timeout_type ++ lit " timeout occurred. Please try again." in
      ret (SampleSummary.failed error_msg)
  | RetryError =>
      ret (SampleSummary.failed
             (lit "Service temporarily unavailable. Please try again later."))
  | _ => ret (SampleSummary.failed (lit "Request failed: " ++ exc_str w e))
  end log
  = (inr (SampleSummary.failed (sample_exception_message w e)), log).
Proof. destruct e as [[|]| | | | | |]; reflexivity. Qed.

(** [sampleSummary.py]: the same description for the earlier handler. *)
Lemma sample_run (w : world) (email : SampleSummary.EmailRequest) (log : list event) :
  exists r,
    SampleSummary.summarize_email w email log =
      (inr r, log ++ [HttpPost SampleSummary.API_URL (SampleSummary.payload email)]) /\
    match session_post w SampleSummary.API_URL (SampleSummary.payload email) with
    | Raises e => r = SampleSummary.failed (sample_exception_message w e)
    | Returns resp =>
        if (status_code resp =? 200)%Z then
          match json resp with
          | inl e => r = SampleSummary.failed (sample_exception_message w e)
          | inr envelope =>
              match envelope_content envelope with
              | Some raw => r = sample_reply (clean_response (strip raw))
              | None => exists msg, truthy msg = true /\ r = SampleSummary.failed msg
              end
          end
        else
          r = SampleSummary.failed
                (lit "API Error: " ++ str_of_int (status_code resp)
                   ++ lit " - " ++ text resp)
    end.
Proof.
  unfold SampleSummary.summarize_email.
  unfold try_except, bind at 1, post.
  destruct (session_post w SampleSummary.API_URL (SampleSummary.payload email))
    as [e|resp].
  { rewrite sample_handler. eexists. split; reflexivity. }
  destruct (status_code resp =? 200)%Z.
  2:{ eexists. split; reflexivity. }
  rewrite bind_lift. destruct (json resp) as [e|envelope].
  { rewrite sample_handler. eexists. split; reflexivity. }
  destruct (envelope_content envelope) as [raw|] eqn:E.
  - destruct (reply_text_ok _ _ E) as [Ht _].
    rewrite io_reply_text, bind_lift, Ht, sample_parsed.
    eexists. split; reflexivity.
  - destruct (reply_text_bad _ E) as [e He].
    rewrite io_reply_text, bind_lift, He, sample_handler.
    eexists. split; [reflexivity|]. eexists. split; [|reflexivity].
    apply sample_exception_message_truthy.
Qed.

Lemma delivered_inv (w : world) (url : str) (data : pyobj) (raw : str) :
  delivered w url data = Some raw ->
  exists resp envelope,
    session_post w url data = Returns resp /\
    (status_code resp =? 200)%Z = true /\
    json resp = inr envelope /\
    envelope_content envelope = Some raw.
Proof.
  unfold delivered. destruct (session_post w url data) as [e|resp]; [discriminate|].
  destruct (status_code resp =? 200)%Z eqn:Hs; [|discriminate].
  destruct (json resp) as [e|envelope] eqn:Hj; [discriminate|].
  intros H. exists resp, envelope. repeat split; assumption.
Qed.

Lemma main_delivered (w : world) (email : Main.EmailRequest) (log : list event) (raw : str) :
  delivered w Main.API_URL (Main.payload email) = Some raw ->
  Main.summarize_email w email log =
  (inr (main_reply
          (Main.scan_links (validators_url w) (Main.extract_links (Main.body email)))
          (clean_response (strip raw))),
   log ++ [HttpPost Main.API_URL (Main.payload email)]).
Proof.
  intros D. apply delivered_inv in D as (resp & envelope & H1 & H2 & H3 & H4).
  destruct (main_run w email log) as (r & Hr & Hc).
  rewrite H1, H2, H3, H4 in Hc. subst r. exact Hr.
Qed.


Lemma get_parse_fields (lines : list str) :
  get (parse_fields lines) SUMMARY =
    Some (last_nonempty_match SUMMARY (lit "No summary available") lines) /\
  get (parse_fields lines) RISK_LEVEL =
    Some (last_nonempty_match RISK_LEVEL (lit "UNKNOWN") lines) /\
  get (parse_fields lines) RISK_DETAILS =
    Some (last_nonempty_match RISK_DETAILS (lit "No details provided") lines).
Proof. rewrite parse_fields_spec. repeat split. Qed.

(** The entry of a field after one more line. *)
Lemma parse_fields_step (seen : list str) (line field current : str) :
  In field required_fields ->
  get (parse_fields seen) field = Some current ->
  get (parse_fields (seen ++ [line])) field =
  Some (if startswith line field then
          if truthy (strip (replace line field []))
          then strip (replace line field []) else current
        else current).
Proof.
  intros Hf. rewrite parse_fields_app, parse_fields_spec, process_line_fields.
  unfold nonempty_match, field_value.
  destruct Hf as [<- | [<- | [<- | []]]]; intros H; injection H as <-.
  - destruct (startswith line SUMMARY); [|reflexivity].
    destruct (truthy _); reflexivity.
  - destruct (startswith line RISK_LEVEL); [|reflexivity].
    destruct (truthy _); reflexivity.
  - destruct (startswith line RISK_DETAILS); [|reflexivity].
    destruct (truthy _); reflexivity.
Qed.

Lemma has_required_fields_false (content : str) :
  (exists field, In field required_fields /\ contains field content = false) ->
  has_required_fields content = false.
Proof.
  intros (field & Hin & Hc). unfold has_required_fields.
  destruct (forallb _ required_fields) eqn:F; [|reflexivity].
  rewrite forallb_forall in F. rewrite (F field Hin) in Hc. discriminate.
Qed.

Lemma normalize_risk_level_in (v : str) : In (normalize_risk_level v) risk_levels.
Proof.
  unfold normalize_risk_level.
  destruct (existsb (str_eqb v) risk_levels) eqn:E.
  - apply existsb_exists in E as (x & Hin & Hx).
    apply str_eqb_eq in Hx. subst x. exact Hin.
  - right; right; right; left. reflexivity.
Qed.

Lemma normalize_risk_level_other (v : str) :
  ~ In v risk_levels -> normalize_risk_level v = lit "UNKNOWN".
Proof.
  intros H. unfold normalize_risk_level.
  destruct (existsb (str_eqb v) risk_levels) eqn:E; [|reflexivity].
  apply existsb_exists in E as (x & Hin & Hx).
  apply str_eqb_eq in Hx. subst x. contradiction.
Qed.

(** ** Links *)

Lemma findall_url_aux_skip (k : nat) (s : str) :
  Re.findall_url_aux k s = Re.findall_url_aux 0 (skipn k s).
Proof.
  revert k; induction s as [|c r IH]; intros [|k]; try reflexivity.
  simpl. apply IH.
Qed.

Lemma span_nonspace_spec (s : str) :
  exists rest post,
    s = rest ++ post /\
    length rest = Re.span_nonspace s /\
    Forall (fun c => isspace c = false) rest /\
    match post with
    | [] => True
    | c :: _ => isspace c = true
    end.
Proof.
  induction s as [|c r (rest & post & E & L & F & P)].
  - exists [], []. repeat split. constructor.
  - cbn [Re.span_nonspace]. destruct (isspace c) eqn:Hc.
    + exists [], (c :: r). repeat split; [constructor | exact Hc].
    + exists (c :: rest), post. repeat split.
      * simpl. rewrite <- E. reflexivity.
      * simpl. rewrite L. reflexivity.
      * constructor; assumption.
      * exact P.
Qed.

(** What a match of the URL pattern at the head of [s] looks like. *)
Lemma match_url_spec (s : str) (n : nat) :
  Re.match_url s = Some n ->
  exists scheme rest post,
    s = (scheme ++ rest) ++ post /\
    n = length (scheme ++ rest) /\
    (scheme = lit "http://" \/ scheme = lit "https://") /\
    rest <> [] /\
    Forall (fun c => isspace c = false) rest /\
    match post with
    | [] => True
    | c :: _ => isspace c = true
    end.
Proof.
  unfold Re.match_url. destruct (startswith s (lit "http")) eqn:H; [|discriminate].
  apply startswith_iff in H as [t ->].
  change (skipn 4 (lit "http" ++ t)) with t.
  assert (G : forall (u : str) (m : nat) (scheme : str),
             length scheme = m + 3 ->
             (scheme = lit "http://" \/ scheme = lit "https://") ->
             forall r, u = scheme ++ r ->
             match Re.span_nonspace r with
             | 0 => None
             | S k => Some (m + 3 + S k)
             end = Some n ->
             exists scheme rest post,
               u = (scheme ++ rest) ++ post /\
               n = length (scheme ++ rest) /\
               (scheme = lit "http://" \/ scheme = lit "https://") /\
               rest <> [] /\
               Forall (fun c => isspace c = false) rest /\
               match post with
               | [] => True
               | c :: _ => isspace c = true
               end).
  { intros u m scheme Hl Hs r -> Hn.
    destruct (span_nonspace_spec r) as (rest & post & E & L & F & P).
    destruct (Re.span_nonspace r) as [|k]; [discriminate|].
    injection Hn as <-. exists scheme, rest, post. repeat split; try assumption.
    - rewrite E, app_assoc. reflexivity.
    - rewrite length_app, Hl, L. reflexivity.
    - intros ->. discriminate. }
  destruct t as [|c t].
  - discriminate.
  - destruct (char_eqb c (ch "s")) eqn:Hc.
    + apply char_eqb_eq in Hc. subst c.
      destruct (startswith t (lit "://")) eqn:H; [|discriminate].
      apply startswith_iff in H as [r ->].
      change (skipn 3 (lit "://" ++ r)) with r.
      apply (G _ 5 (lit "https://")); [reflexivity | right; reflexivity | reflexivity].
    + destruct (startswith (c :: t) (lit "://")) eqn:H; [|discriminate].
      apply startswith_iff in H as [r Hr]. rewrite Hr.
      change (skipn 3 (lit "://" ++ r)) with r.
      apply (G _ 4 (lit "http://")); [reflexivity | left; reflexivity | reflexivity].
Qed.

(** The pattern matches wherever a scheme is followed by a character
    that is not whitespace. *)
Lemma match_url_complete (scheme : str) (c : char) (post : str) :
  scheme = lit "http://" \/ scheme = lit "https://" ->
  isspace c = false ->
  Re.match_url (scheme ++ c :: post) <> None.
Proof.
  intros [-> | ->] Hc;
    cbv -[isspace Re.span_nonspace Nat.add];
    cbn [Re.span_nonspace]; rewrite Hc; discriminate.
Qed.

Lemma token_at_cons (c : char) (s t : str) (i : nat) :
  token_at s t i -> token_at (c :: s) t (S i).
Proof.
  intros (post & E & L & P). exists post. repeat split; [exact E | simpl; lia | exact P].
Qed.

Lemma match_url_token (s : str) (n : nat) :
  Re.match_url s = Some n ->
  is_url_token (firstn n s) /\ token_at s (firstn n s) 0 /\
  length (firstn n s) = n /\ 0 < n.
Proof.
  intros M. apply match_url_spec in M
    as (scheme & rest & post & -> & -> & Hs & Hr & F & P).
  rewrite firstn_app, Nat.sub_diag, firstn_all. simpl firstn. rewrite app_nil_r.
  repeat split.
  - exists scheme, rest. repeat split; assumption.
  - exists post. repeat split; [lia | exact P].
  - rewrite length_app. destruct rest; [contradiction | simpl; lia].
Qed.

(** [findall] at a match: the matched text, then the matches after it. *)
Lemma findall_url_match (s : str) (n : nat) :
  Re.match_url s = Some n ->
  Re.findall_url s = firstn n s :: Re.findall_url (skipn n s).
Proof.
  intros M. unfold Re.findall_url. destruct s as [|c r]; [discriminate|].
  cbn [Re.findall_url_aux]. rewrite M, findall_url_aux_skip. f_equal. f_equal.
  apply skipn_pred_cons. apply (match_url_token _ _ M).
Qed.

(** Every string returned by [findall] is a URL-like token of the body
    that runs up to whitespace or to the end. *)
Lemma findall_url_sound (s : str) :
  forall k t,
    In t (Re.findall_url_aux k s) ->
    is_url_token t /\ exists i, token_at s t i.
Proof.
  induction s as [|c r IH]; intros k t; [intros []|].
  cbn [Re.findall_url_aux]. destruct k as [|k].
  - destruct (Re.match_url (c :: r)) as [n|] eqn:M.
    + intros [<- | H].
      * destruct (match_url_token _ _ M) as (H1 & H2 & _). split; [exact H1|].
        exists 0. exact H2.
      * destruct (IH _ _ H) as (H1 & i & H2). split; [exact H1|].
        exists (S i). apply token_at_cons, H2.
    + intros H. destruct (IH _ _ H) as (H1 & i & H2). split; [exact H1|].
      exists (S i). apply token_at_cons, H2.
  - intros H. destruct (IH _ _ H) as (H1 & i & H2). split; [exact H1|].
    exists (S i). apply token_at_cons, H2.
Qed.

(** Every place of the body where the pattern matches lies inside one of
    the strings returned by [findall]. *)
Lemma findall_url_complete (s : str) :
  forall k p,
    k <= p -> Re.match_url (skipn p s) <> None ->
    exists t i,
      In t (Re.findall_url_aux k s) /\ token_at s t i /\ i <= p < i + length t.
Proof.
  induction s as [|c r IH]; intros k p Hk M.
  - rewrite skipn_nil in M. contradiction M. reflexivity.
  - cbn [Re.findall_url_aux]. destruct k as [|k].
    + destruct (Re.match_url (c :: r)) as [n|] eqn:Mh.
      * destruct (match_url_token _ _ Mh) as (_ & H2 & H3 & H4).
        destruct (Nat.lt_ge_cases p n) as [Hp | Hp].
        -- exists (firstn n (c :: r)), 0. split; [left; reflexivity|].
           split; [exact H2 | lia].
        -- destruct p as [|p]; [lia|].
           destruct (IH (n - 1) p ltac:(lia) M) as (t & i & H5 & H6 & H7).
           exists t, (S i). split; [right; exact H5|].
           split; [apply token_at_cons, H6 | lia].
      * destruct p as [|p]; [contradiction|].
        destruct (IH 0 p ltac:(lia) M) as (t & i & H5 & H6 & H7).
        exists t, (S i). split; [exact H5|].
        split; [apply token_at_cons, H6 | lia].
    + destruct p as [|p]; [lia|].
      destruct (IH k p ltac:(lia) M) as (t & i & H5 & H6 & H7).
      exists t, (S i). split; [exact H5|].
      split; [apply token_at_cons, H6 | lia].
Qed.

Lemma filter_filter {A} (f g : A -> bool) (l : list A) :
  filter f (filter g l) = filter (fun x => g x && f x) l.
Proof.
  induction l as [|x l IH]; [reflexivity|]. simpl.
  destruct (g x); simpl; [destruct (f x); rewrite IH; reflexivity | exact IH].
Qed.

Lemma dedup_in (l : list str) (x : str) : In x (dedup l) <-> In x l.
Proof.
  induction l as [|y l IH]; [reflexivity|]. simpl. rewrite filter_In, IH. split.
  - intros [H | [H _]]; [left | right]; assumption.
  - intros [H | H]; [left; exact H|].
    destruct (str_eqb y x) eqn:E.
    + left. apply str_eqb_eq, E.
    + right. split; [exact H | reflexivity].
Qed.

Lemma dedup_nodup (l : list str) : NoDup (dedup l).
Proof.
  induction l as [|y l IH]; simpl; constructor.
  - rewrite filter_In. intros [_ H]. rewrite str_eqb_refl in H. discriminate.
  - apply NoDup_filter, IH.
Qed.

Lemma setitem_map (f : str -> str) (ks : list str) (k : str) :
  setitem (map (fun x => (x, f x)) ks) k (f k) =
  map (fun x => (x, f x)) (if existsb (str_eqb k) ks then ks else ks ++ [k]).
Proof.
  induction ks as [|y ks IH]; [reflexivity|].
  cbn [map setitem existsb]. rewrite (str_eqb_sym k y).
  destruct (str_eqb y k) eqn:E.
  - apply str_eqb_eq in E. subst y. reflexivity.
  - cbn [orb]. rewrite IH. destruct (existsb (str_eqb k) ks); reflexivity.
Qed.

Lemma scan_links_step (validators : option (str -> bool)) (d : dict str) (link : str) :
  (let valid :=
     match validators with
     | Some url => url link
     | None => false
     end in
   if valid then setitem d link (lit "SAFE")
   else
     setitem d link
       (match validators with
        | Some _ => lit "INVALID"
        | None => lit "UNKNOWN"
        end))
  = setitem d link (classify validators link).
Proof.
  unfold classify. destruct validators as [url|]; [|reflexivity].
  cbv zeta. destruct (url link); reflexivity.
Qed.

Lemma scan_links_fold (validators : option (str -> bool)) (links : list str) :
  forall ks,
    fold_left
      (fun scanned_results link =>
         let valid :=
           match validators with
           | Some url => url link
           | None => false
           end in
         if valid then setitem scanned_results link (lit "SAFE")
         else
           setitem scanned_results link
             (match validators with
              | Some _ => lit "INVALID"
              | None => lit "UNKNOWN"
              end))
      links (map (fun k => (k, classify validators k)) ks)
    = map (fun k => (k, classify validators k))
        (ks ++ filter (not_in ks) (dedup links)).
Proof.
  induction links as [|x links IH]; intros ks.
  - simpl. rewrite app_nil_r. reflexivity.
  - cbn [fold_left]. rewrite scan_links_step, setitem_map, IH. f_equal.
    cbn [dedup filter]. unfold not_in at 2.
    destruct (existsb (str_eqb x) ks) eqn:E; cbn [negb].
    + f_equal. rewrite filter_filter. apply filter_ext_in. intros y _.
      unfold not_in. destruct (str_eqb x y) eqn:Exy; [|reflexivity].
      apply str_eqb_eq in Exy. subst y. rewrite E. reflexivity.
    + rewrite <- app_assoc. cbn [app]. f_equal. f_equal.
      rewrite filter_filter. apply filter_ext_in. intros y _.
      unfold not_in. rewrite existsb_app. cbn [existsb].
      rewrite orb_false_r, negb_orb, (str_eqb_sym y x), andb_comm. reflexivity.
Qed.

Lemma scan_links_spec (validators : option (str -> bool)) (links : list str) :
  Main.scan_links validators links =
  map (fun k => (k, classify validators k)) (dedup links).
Proof.
  unfold Main.scan_links.
  etransitivity; [exact (scan_links_fold validators links [])|].
  cbn [app]. f_equal.
  apply forallb_filter_id. apply forallb_forall. reflexivity.
Qed.

Lemma keys_map (f : str -> str) (ks : list str) :
  keys (map (fun k => (k, f k)) ks) = ks.
Proof.
  unfold keys. rewrite map_map. cbn [fst]. apply map_id.
Qed.

Lemma get_map (f : str -> str) (ks : list str) (k : str) :
  In k ks -> get (map (fun x => (x, f x)) ks) k = Some (f k).
Proof.
  induction ks as [|y ks IH]; [intros []|]. cbn [map get].
  destruct (str_eqb y k) eqn:E.
  - apply str_eqb_eq in E. subst y. reflexivity.
  - intros [H | H]; [subst y; rewrite str_eqb_refl in E; discriminate | apply IH, H].
Qed.

(** The request function of the form always comes back with a result,
    after one POST to the backend. *)
Lemma app_summarize_email_run (w : world) (subject sender recipient body : str)
    (log : list event) :
  exists result payload,
    App.summarize_email w subject sender recipient body log =
    (inr result, log ++ [HttpPost App.BACKEND_URL payload]).
Proof.
  unfold App.summarize_email, try_except, bind, post, lift, ret.
  destruct (session_post w App.BACKEND_URL _) as [e|resp].
  { destruct e; eexists; eexists; reflexivity. }
  destruct (status_code resp =? 200)%Z; [|eexists; eexists; reflexivity].
  destruct (json resp) as [e|result].
  { destruct e; eexists; eexists; reflexivity. }
  destruct (py_get result (lit "status")) as [e|status].
  { destruct e; eexists; eexists; reflexivity. }
  destruct (py_eq_str status (lit "success")); [|eexists; eexists; reflexivity].
  destruct (py_get result (lit "summary")) as [e|summary].
  { destruct e; eexists; eexists; reflexivity. }
  destruct (py_truthy summary); [|eexists; eexists; reflexivity].
  destruct (py_getitem result (lit "summary")) as [e|summary'].
  { destruct e; eexists; eexists; reflexivity. }
  destruct (App.clean_summary summary') as [e|cleaned].
  { destruct e; eexists; eexists; reflexivity. }
  destruct (py_setitem result (lit "summary") (PStr cleaned)) as [e|result'].
  { destruct e; eexists; eexists; reflexivity. }
  eexists; eexists; reflexivity.
Qed.

Lemma forallb_truthy_false (subject sender recipient body : str) :
  subject = [] \/ sender = [] \/ recipient = [] \/ body = [] ->
  forallb truthy [subject; sender; recipient; body] = false.
Proof.
  intros [-> | [-> | [-> | ->]]]; cbn [forallb truthy];
    rewrite ?andb_false_r; reflexivity.
Qed.

(** [sampleSummary.py] answers an empty cleaned reply with its own error,
    before it looks for the fields. *)
Lemma sample_empty_reply (w : world) (email : SampleSummary.EmailRequest)
    (log : list event) (raw : str) :
  delivered w SampleSummary.API_URL (SampleSummary.payload email) = Some raw ->
  clean_response (strip raw) = [] ->
  exists log',
    SampleSummary.summarize_email w email log =
    (inr {| SampleSummary.summary := lit "Error: Empty response";
            SampleSummary.status := lit "error";
            SampleSummary.risk_assessment := lit "UNKNOWN - Empty response";
            SampleSummary.error := Some (lit "API returned empty or invalid response") |},
     log').
Proof.
  intros D E. apply delivered_inv in D as (resp & envelope & H1 & H2 & H3 & H4).
  destruct (sample_run w email log) as (r & Hr & Hc).
  rewrite H1, H2, H3, H4, E in Hc. subst r. eexists. exact Hr.
Qed.

(** [main.py] has no such check: an empty cleaned reply is reported as a
    reply with missing fields. *)
Lemma main_empty_reply (w : world) (email : Main.EmailRequest)
    (log : list event) (raw : str) :
  delivered w Main.API_URL (Main.payload email) = Some raw ->
  clean_response (strip raw) = [] ->
  exists log',
    Main.summarize_email w email log =
    (inr {| Main.summary := lit "Error: Invalid response format";
            Main.status := lit "error";
            Main.risk_assessment := lit "UNKNOWN - Response format error";
            Main.error := Some (lit "API response missing required fields");
            Main.link_scan_results := None |},
     log').
Proof.
  intros D E. rewrite (main_delivered w email log raw D), E.
  eexists. reflexivity.
Qed.

(** ** The patterns, stated on the text *)

Lemma url_token_length (t : str) : is_url_token t -> 8 <= length t.
Proof.
  intros (scheme & rest & -> & Hs & Hr & _). rewrite length_app.
  destruct rest; [contradiction|].
  destruct Hs as [-> | ->]; simpl; lia.
Qed.

Lemma find_gt_some (r : str) (k : nat) :
  Re.find_gt r = Some k ->
  exists inner post,
    r = inner ++ ch ">" :: post /\ length inner = k /\
    Forall (fun c => c <> ch ">") inner.
Proof.
  revert k; induction r as [|c r IH]; intros k; [discriminate|].
  cbn [Re.find_gt]. destruct (char_eqb c (ch ">")) eqn:E.
  - intros H; injection H as <-. apply char_eqb_eq in E. subst c.
    exists [], r. repeat split. constructor.
  - destruct (Re.find_gt r) as [j|]; [|discriminate].
    cbn [option_map]. intros H; injection H as <-.
    destruct (IH j eq_refl) as (inner & post & -> & L & F).
    exists (c :: inner), post. repeat split.
    + simpl. rewrite L. reflexivity.
    + constructor; [apply char_eqb_neq, E | exact F].
Qed.

Lemma find_gt_at (inner post : str) :
  Forall (fun c => c <> ch ">") inner ->
  Re.find_gt (inner ++ ch ">" :: post) = Some (length inner).
Proof.
  induction 1 as [|c inner Hc _ IH].
  - cbn [app Re.find_gt]. rewrite char_eqb_refl. reflexivity.
  - cbn [app Re.find_gt length].
    replace (char_eqb c (ch ">")) with false by (symmetry; apply char_eqb_neq, Hc).
    rewrite IH. reflexivity.
Qed.

(** The pattern of the tags matches at the head of a text exactly when a
    tag stands there, and then over that tag. *)
Lemma match_tag_at (s inner post : str) :
  tag_at_head s inner post ->
  Re.match_tag s = Some (length inner + 2) /\ skipn (length inner + 2) s = post.
Proof.
  intros (-> & Hne & F). split.
  - unfold Re.match_tag. rewrite char_eqb_refl, (find_gt_at inner post F).
    destruct inner as [|x inner]; [contradiction|].
    cbn [length]. f_equal. lia.
  - replace (length inner + 2) with (S (length (inner ++ [ch ">"])))
      by (rewrite length_app; simpl; lia).
    cbn [skipn].
    replace (inner ++ ch ">" :: post) with ((inner ++ [ch ">"]) ++ post)
      by (rewrite <- app_assoc; reflexivity).
    rewrite skipn_app, skipn_all, Nat.sub_diag. reflexivity.
Qed.

Lemma match_tag_some (s : str) (n : nat) :
  Re.match_tag s = Some n ->
  exists inner post, tag_at_head s inner post /\ n = length inner + 2.
Proof.
  unfold Re.match_tag. destruct s as [|c r]; [discriminate|].
  destruct (char_eqb c (ch "<")) eqn:E; [|discriminate].
  apply char_eqb_eq in E. subst c.
  destruct (Re.find_gt r) as [[|k]|] eqn:G; try discriminate.
  intros H; injection H as <-.
  destruct (find_gt_some r (S k) G) as (inner & post & -> & L & F).
  exists inner, post. split; [|lia].
  split; [reflexivity|]. split; [|exact F].
  intros ->. discriminate L.
Qed.

Lemma sub_tags_keep (c : char) (r : str) :
  Re.match_tag (c :: r) = None -> Re.sub_tags (c :: r) = c :: Re.sub_tags r.
Proof. intros M. unfold Re.sub_tags. cbn [Re.sub_tags_aux]. rewrite M. reflexivity. Qed.

(** [re.sub] removes the tags and nothing else. *)
Lemma sub_tags_removed (s : str) : tags_removed s (Re.sub_tags s).
Proof.
  remember (length s) as n eqn:Hn. revert s Hn.
  induction n as [n IH] using lt_wf_ind. intros s Hn.
  destruct s as [|c r]; [constructor|].
  destruct (Re.match_tag (c :: r)) as [k|] eqn:M.
  - destruct (match_tag_some _ _ M) as (inner & post & T & ->).
    rewrite (sub_tags_match _ _ M).
    destruct (match_tag_at _ _ _ T) as [_ S]. rewrite S.
    apply (removed_tag (c :: r) inner post _ T).
    apply (IH (length post)); [|reflexivity].
    destruct T as (E & _). rewrite Hn, E. simpl. rewrite length_app. simpl. lia.
  - rewrite (sub_tags_keep c r M). apply removed_keep.
    + intros (inner & post & T). destruct (match_tag_at _ _ _ T) as [M' _].
      congruence.
    + apply (IH (length r)); [simpl in Hn; lia | reflexivity].
Qed.

Lemma tags_removed_unique (s t : str) :
  tags_removed s t -> t = Re.sub_tags s.
Proof.
  induction 1 as [|s inner post t T _ IH|c r t N _ IH].
  - reflexivity.
  - destruct (match_tag_at _ _ _ T) as [M S].
    rewrite (sub_tags_match _ _ M), S. exact IH.
  - rewrite sub_tags_keep, IH; [reflexivity|].
    destruct (Re.match_tag (c :: r)) as [k|] eqn:M; [|reflexivity].
    exfalso. apply N. destruct (match_tag_some _ _ M) as (inner & post & T & _).
    exists inner, post. exact T.
Qed.

Lemma span_nonspace_app (rest post : str) :
  Forall (fun c => isspace c = false) rest ->
  match post with [] => True | c :: _ => isspace c = true end ->
  Re.span_nonspace (rest ++ post) = length rest.
Proof.
  intros F P. induction F as [|c rest Hc _ IH].
  - destruct post as [|c post]; [reflexivity|]. cbn [app Re.span_nonspace].
    rewrite P. reflexivity.
  - cbn [app Re.span_nonspace length]. rewrite Hc, IH. reflexivity.
Qed.

Lemma match_url_scheme (scheme : str) (c : char) (u : str) :
  scheme = lit "http://" \/ scheme = lit "https://" ->
  isspace c = false ->
  Re.match_url (scheme ++ c :: u) = Some (length scheme + S (Re.span_nonspace u)).
Proof.
  intros [-> | ->] Hc;
    cbv -[isspace Re.span_nonspace Nat.add];
    cbn [Re.span_nonspace]; rewrite Hc; reflexivity.
Qed.

(** The pattern of the links matches at the head of a text exactly when
    a token begins there, and then over that token. *)
Lemma match_url_at (s token post : str) :
  url_at_head s token post ->
  Re.match_url s = Some (length token) /\
  firstn (length token) s = token /\ skipn (length token) s = post.
Proof.
  intros (-> & (scheme & rest & -> & Hs & Hr & F) & P).
  split; [|split].
  - destruct rest as [|c rest]; [contradiction|].
    inversion F as [|? ? Hc F']; subst.
    rewrite <- !app_assoc. cbn [app].
    rewrite (match_url_scheme scheme c (rest ++ post) Hs Hc).
    rewrite (span_nonspace_app rest post F' P), length_app. reflexivity.
  - rewrite firstn_app, Nat.sub_diag, firstn_all. cbn [firstn].
    apply app_nil_r.
  - rewrite skipn_app, skipn_all, Nat.sub_diag. reflexivity.
Qed.

Lemma match_url_some (s : str) (n : nat) :
  Re.match_url s = Some n ->
  exists token post, url_at_head s token post /\ n = length token.
Proof.
  intros M. apply match_url_spec in M
    as (scheme & rest & post & -> & -> & Hs & Hr & F & P).
  exists (scheme ++ rest), post. split; [|reflexivity].
  split; [reflexivity|]. split; [|exact P].
  exists scheme, rest. repeat split; assumption.
Qed.

Lemma findall_url_skip (c : char) (r : str) :
  Re.match_url (c :: r) = None -> Re.findall_url (c :: r) = Re.findall_url r.
Proof. intros M. unfold Re.findall_url. cbn [Re.findall_url_aux]. rewrite M. reflexivity. Qed.

(** [re.findall] returns the tokens of the text, from left to right. *)
Lemma findall_url_matches (s : str) : url_matches s (Re.findall_url s).
Proof.
  remember (length s) as n eqn:Hn. revert s Hn.
  induction n as [n IH] using lt_wf_ind. intros s Hn.
  destruct s as [|c r]; [constructor|].
  destruct (Re.match_url (c :: r)) as [k|] eqn:M.
  - destruct (match_url_some _ _ M) as (token & post & T & ->).
    rewrite (findall_url_match _ _ M).
    destruct (match_url_at _ _ _ T) as (_ & Ft & Sk). rewrite Ft, Sk.
    apply (matches_here (c :: r) token post _ T).
    apply (IH (length post)); [|reflexivity].
    destruct T as (E & Tk & _). apply url_token_length in Tk.
    rewrite Hn, E, length_app. lia.
  - rewrite (findall_url_skip c r M). apply matches_skip.
    + intros (token & post & T). destruct (match_url_at _ _ _ T) as (M' & _).
      congruence.
    + apply (IH (length r)); [simpl in Hn; lia | reflexivity].
Qed.

Lemma url_matches_unique (s : str) (links : list str) :
  url_matches s links -> links = Re.findall_url s.
Proof.
  induction 1 as [|s token post links T _ IH|c r links N _ IH].
  - reflexivity.
  - destruct (match_url_at _ _ _ T) as (M & Ft & Sk).
    rewrite (findall_url_match _ _ M), Ft, Sk, IH. reflexivity.
  - rewrite findall_url_skip; [exact IH|].
    destruct (Re.match_url (c :: r)) as [k|] eqn:M; [|reflexivity].
    exfalso. apply N. destruct (match_url_some _ _ M) as (token & post & T & _).
    exists token, post. exact T.
Qed.

(** [strip] removes the whitespace at the two ends and nothing else. *)
Lemma strip_trimmed_of (s : str) : trimmed_of s (strip s).
Proof.
  unfold strip. destruct (lstrip_suffix s) as (a & Ea & Wa).
  destruct (rstrip_prefix (lstrip s)) as (b & Eb & Wb).
  exists a, b. split; [rewrite <- Eb; exact Ea|].
  split; [exact Wa|]. split; [exact Wb|]. split.
  - apply rstrip_head, lstrip_head.
  - unfold rstrip. rewrite rev_involutive. apply lstrip_head.
Qed.

(** ** The claims *)

(** C1 — Field extraction.  The content is cut at the line feeds, the
    pieces are trimmed and the blank ones dropped; each further line that
    starts with a marker and leaves a non-empty remainder overwrites the
    entry of that field, any other line leaves it as it is; so each entry
    ends as the last non-empty match, or as its default ("No summary
    available", "UNKNOWN", "No details provided"), and the summary of the
    reply is that entry.  For "SUMMARY: \nRISK_LEVEL: LOW\nRISK_DETAILS: ok"
    the summary is the default.  The remainder of a line is the line
    without any occurrence of the marker and without the whitespace at its
    ends; starting with a marker means having it as a prefix; a reply with
    three filled fields gives the three values, and where a marker recurs
    the last filled line gives the value. *)
Theorem C1_field_extraction (content : str) :
  has_required_fields content = true ->
  let lines := content_lines content in
  (join LF (split content LF) = content /\
   Forall (fun piece => ~ In 10%N piece) (split content LF) /\
   lines = map strip (filter (fun piece => truthy (strip piece)) (split content LF)) /\
   Forall (fun line => line <> [] /\ strip line = line) lines) /\
  (forall seen line field current,
     In field required_fields ->
     get (parse_fields seen) field = Some current ->
     get (parse_fields (seen ++ [line])) field =
     Some (if startswith line field then
             if truthy (strip (replace line field []))
             then strip (replace line field []) else current
           else current)) /\
  (get (parse_fields lines) SUMMARY =
     Some (last_nonempty_match SUMMARY (lit "No summary available") lines) /\
   get (parse_fields lines) RISK_LEVEL =
     Some (last_nonempty_match RISK_LEVEL (lit "UNKNOWN") lines) /\
   get (parse_fields lines) RISK_DETAILS =
     Some (last_nonempty_match RISK_DETAILS (lit "No details provided") lines)) /\
  (forall w email log raw,
     delivered w Main.API_URL (Main.payload email) = Some raw ->
     clean_response (strip raw) = content ->
     exists r log',
       Main.summarize_email w email log = (inr r, log') /\
       Main.summary r =
       last_nonempty_match SUMMARY (lit "No summary available") lines) /\
  get (parse_fields (content_lines empty_summary_reply)) SUMMARY =
    Some (lit "No summary available") /\
  (forall s, trimmed_of s (strip s)) /\
  (forall s prefix, startswith s prefix = true <-> exists t, s = prefix ++ t) /\
  (forall field line,
     In field required_fields ->
     field_value field line = strip (delete_occurrences field line)) /\
  (forall (seen : list str) (line field current : str),
     In field required_fields ->
     get (parse_fields seen) field = Some current ->
     ((exists t, line = field ++ t) ->
      strip (delete_occurrences field line) <> [] ->
      get (parse_fields (seen ++ [line])) field =
      Some (strip (delete_occurrences field line))) /\
     ((~ exists t, line = field ++ t) \/ strip (delete_occurrences field line) = [] ->
      get (parse_fields (seen ++ [line])) field = Some current)) /\
  parse_fields (content_lines invoice_reply) =
    [ (SUMMARY, lit "Invoice reminder");
      (RISK_LEVEL, lit "LOW");
      (RISK_DETAILS, lit "Routine business email") ] /\
  parse_fields (content_lines repeated_reply) =
    [ (SUMMARY, lit "second");
      (RISK_LEVEL, lit "HIGH");
      (RISK_DETAILS, lit "see  above") ].
Proof.
  intros Hreq lines. split; [|split; [|split; [|split]]].
  - split; [|split; [|split]].
    + unfold split.
      rewrite (join_split_aux LF ltac:(discriminate) (length content) content [] (le_n _)).
      reflexivity.
    + apply split_lf_pieces. intros [].
    + reflexivity.
    + apply content_lines_trimmed.
  - apply parse_fields_step.
  - apply get_parse_fields.
  - intros w email log raw D E.
    rewrite (main_delivered w email log raw D), E.
    eexists. eexists. split; [reflexivity|].
    unfold main_reply. rewrite Hreq. reflexivity.
  - assert (R : forall field line,
               In field required_fields ->
               field_value field line = strip (delete_occurrences field line)).
    { intros field line Hf. unfold field_value.
      destruct (required_fields_unbordered field Hf) as [U N].
      rewrite (replace_delete_occurrences field line U N). reflexivity. }
    split; [reflexivity|]. split; [apply strip_trimmed_of|].
    split; [apply startswith_iff|]. split; [exact R|].
    split; [|split; reflexivity].
    intros seen line field current Hf Hc.
    pose proof (parse_fields_step seen line field current Hf Hc) as St.
    change (strip (replace line field [])) with (field_value field line) in St.
    rewrite (R field line Hf) in St. split.
    + intros Hp Hv. rewrite St. apply startswith_iff in Hp. rewrite Hp.
      apply truthy_iff in Hv. rewrite Hv. reflexivity.
    + intros [Hp | Hv]; rewrite St.
      * destruct (startswith line field) eqn:S; [|reflexivity].
        exfalso. apply Hp, startswith_iff, S.
      * rewrite Hv. destruct (startswith line field); reflexivity.
Qed.

Lemma C1_field_extraction_witness :
  has_required_fields invoice_reply = true /\
  exists r log',
    Main.summarize_email (world_replying invoice_reply) sample_email [] =
      (inr r, log') /\
    Main.summary r = lit "Invoice reminder".
Proof.
  split; [reflexivity|].
  destruct (C1_field_extraction invoice_reply eq_refl) as (_ & _ & _ & H & _).
  destruct (H (world_replying invoice_reply) sample_email [] invoice_reply
              eq_refl eq_refl) as (r & log' & Hr & Hs).
  exists r, log'. split; [exact Hr|]. rewrite Hs. reflexivity.
Defined.

(** C2 — Whatever goes wrong while an inquiry is handled (the transport
    raises, times out or runs out of retries, the status is not 200, the
    envelope is malformed, fields are missing), both backends return a
    reply with status "error" and a non-empty error message; the handler
    itself never raises. *)
Theorem C2_failures_are_error_replies (w : world) (log : list event) :
  (forall email,
     exists r log',
       Main.summarize_email w email log = (inr r, log') /\
       (failed_call w Main.API_URL (Main.payload email) ->
        Main.status r = lit "error" /\
        exists msg, Main.error r = Some msg /\ msg <> [])) /\
  (forall email,
     exists r log',
       SampleSummary.summarize_email w email log = (inr r, log') /\
       (failed_call w SampleSummary.API_URL (SampleSummary.payload email) ->
        SampleSummary.status r = lit "error" /\
        exists msg, SampleSummary.error r = Some msg /\ msg <> [])).
Proof.
  split; intros email.
  - destruct (main_run w email log) as (r & Hr & Hc).
    exists r. eexists. split; [exact Hr|]. unfold failed_call.
    destruct (session_post w Main.API_URL (Main.payload email)) as [e|resp].
    { intros _. subst r. split; [reflexivity|]. eexists. split; [reflexivity | discriminate]. }
    destruct (status_code resp =? 200)%Z eqn:S.
    2:{ intros _. subst r. split; [reflexivity|]. eexists. split; [reflexivity | discriminate]. }
    apply Z.eqb_eq in S. intros [F | F]; [contradiction|].
    destruct (json resp) as [e|envelope].
    { subst r. split; [reflexivity|]. eexists. split; [reflexivity | discriminate]. }
    destruct (envelope_content envelope) as [raw|].
    + subst r. unfold main_reply. rewrite F.
      split; [reflexivity|]. eexists. split; [reflexivity | discriminate].
    + destruct Hc as (msg & Hm & ->). split; [reflexivity|].
      exists msg. split; [reflexivity | apply truthy_iff, Hm].
  - destruct (sample_run w email log) as (r & Hr & Hc).
    exists r. eexists. split; [exact Hr|]. unfold failed_call.
    destruct (session_post w SampleSummary.API_URL (SampleSummary.payload email))
      as [e|resp].
    { intros _. subst r. split; [reflexivity|]. eexists. split; [reflexivity|].
      apply truthy_iff, sample_exception_message_truthy. }
    destruct (status_code resp =? 200)%Z eqn:S.
    2:{ intros _. subst r. split; [reflexivity|]. eexists. split; [reflexivity | discriminate]. }
    apply Z.eqb_eq in S. intros [F | F]; [contradiction|].
    destruct (json resp) as [e|envelope].
    { subst r. split; [reflexivity|]. eexists. split; [reflexivity|].
      apply truthy_iff, sample_exception_message_truthy. }
    destruct (envelope_content envelope) as [raw|].
    + subst r. unfold sample_reply. rewrite F.
      destruct (truthy (clean_response (strip raw)));
        (split; [reflexivity|]; eexists; split; [reflexivity | discriminate]).
    + destruct Hc as (msg & Hm & ->). split; [reflexivity|].
      exists msg. split; [reflexivity | apply truthy_iff, Hm].
Qed.

Lemma C2_failures_are_error_replies_witness :
  exists r log',
    SampleSummary.summarize_email world_read_timeout sample_email' [] = (inr r, log') /\
    SampleSummary.status r = lit "error" /\
    exists msg, SampleSummary.error r = Some msg /\ msg <> [].
Proof.
  destruct (C2_failures_are_error_replies world_read_timeout []) as [_ H].
  destruct (H sample_email') as (r & log' & Hr & Hf).
  exists r, log'. split; [exact Hr|]. apply Hf. exact I.
Defined.

(** C3 — A cleaned reply that lacks one of "SUMMARY:", "RISK_LEVEL:",
    "RISK_DETAILS:" (wherever the others stand) is answered by [main.py]
    with status "error" and the error text "API response missing required
    fields"; a reply without "RISK_LEVEL:" is such a case. *)
Theorem C3_missing_fields (w : world) (email : Main.EmailRequest)
    (log : list event) (raw : str) :
  delivered w Main.API_URL (Main.payload email) = Some raw ->
  (exists field,
     In field required_fields /\
     ~ exists pre post, clean_response (strip raw) = pre ++ field ++ post) ->
  exists r log',
    Main.summarize_email w email log = (inr r, log') /\
    Main.status r = lit "error" /\
    Main.error r = Some (lit "API response missing required fields").
Proof.
  intros D (field & Hin & M). rewrite (main_delivered w email log raw D).
  eexists. eexists. split; [reflexivity|].
  unfold main_reply. rewrite has_required_fields_false; [split; reflexivity|].
  exists field. split; [exact Hin|].
  destruct (contains field (clean_response (strip raw))) eqn:C; [|reflexivity].
  exfalso. apply M, contains_iff, C.
Qed.

Lemma C3_missing_fields_witness :
  exists r log',
    Main.summarize_email
      (world_replying (lit "SUMMARY: Invoice reminder" ++ LF ++ lit "RISK_DETAILS: Routine"))
      sample_email [] = (inr r, log') /\
    Main.status r = lit "error" /\
    Main.error r = Some (lit "API response missing required fields").
Proof.
  apply (C3_missing_fields
           (world_replying (lit "SUMMARY: Invoice reminder" ++ LF ++ lit "RISK_DETAILS: Routine"))
           sample_email []
           (lit "SUMMARY: Invoice reminder" ++ LF ++ lit "RISK_DETAILS: Routine")).
  - reflexivity.
  - exists RISK_LEVEL. split; [right; left; reflexivity|].
    intros H. apply contains_iff in H. discriminate H.
Defined.

(** C4 — [clean_response] keeps the text after the last "<think>" (the
    whole content when the marker is absent), deletes the tag-like
    substrings from it (what [re.sub] returns holds no tag, and text
    without tags is left alone), rewrites every CR LF as LF and trims the
    result; the cleaned text holds no angle-bracket tag and is trimmed.
    [re.sub] returns the text with its tags dropped and every other
    character kept in its place, and [strip] drops the whitespace at the
    two ends and nothing else. *)
Theorem C4_clean_response (content : str) :
  (contains THINK content = false ->
   clean_response content = strip (replace (Re.sub_tags content) CRLF LF)) /\
  (forall post,
     after_last THINK content post ->
     clean_response content = strip (replace (Re.sub_tags post) CRLF LF)) /\
  (forall s, ~ has_tag (Re.sub_tags s) /\ (~ has_tag s -> Re.sub_tags s = s)) /\
  (forall s, replace s CRLF LF = substitute_occurrences CRLF LF s) /\
  ~ has_tag (clean_response content) /\
  strip (clean_response content) = clean_response content /\
  (forall s t, tags_removed s t <-> t = Re.sub_tags s) /\
  (forall s, trimmed_of s (strip s)) /\
  clean_response
    (lit "intro <think>plan</think>" ++ LF ++ lit "SUMMARY: <b>x</b> < y"
       ++ CRLF ++ lit "RISK_LEVEL: LOW ")
  = lit "plan" ++ LF ++ lit "SUMMARY: x < y" ++ LF ++ lit "RISK_LEVEL: LOW".
Proof.
  split; [|split; [|split; [|split; [|split]]]].
  - intros H. unfold clean_response. rewrite H. reflexivity.
  - intros post [[pre E] Hpost]. unfold clean_response.
    assert (Hc : contains THINK content = true).
    { apply contains_iff. exists pre, post. exact E. }
    rewrite Hc. unfold split.
    rewrite (@split_last THINK eq_refl ltac:(discriminate)
               (length content) content [] pre post (le_n _) E Hpost).
    reflexivity.
  - intros s. split.
    + apply tag_free_sound, sub_tags_aux_tag_free.
    + intros H. apply sub_tags_fixed.
      destruct (tag_free s) eqn:T; [reflexivity|].
      exfalso. apply H, tag_free_complete, T.
  - intros s. apply replace_substitute_occurrences; [reflexivity | discriminate].
  - apply tag_free_sound, clean_response_tag_free.
  - split; [unfold clean_response; apply strip_idem|].
    split; [|split; [apply strip_trimmed_of | reflexivity]].
    intros s t. split; [apply tags_removed_unique|].
    intros ->. apply sub_tags_removed.
Qed.

Lemma C4_clean_response_witness :
  clean_response (lit "a<think>b<think> <i>SUMMARY:</i>" ++ LF ++ lit "x ") =
  lit "SUMMARY:" ++ LF ++ lit "x".
Proof.
  destruct (C4_clean_response (lit "a<think>b<think> <i>SUMMARY:</i>" ++ LF ++ lit "x "))
    as (_ & H & _).
  rewrite (H (lit " <i>SUMMARY:</i>" ++ LF ++ lit "x ")).
  - reflexivity.
  - split; [exists (lit "a<think>b"); reflexivity | reflexivity].
Defined.

(** C5 — The risk level put into the risk assessment of a parsed reply is
    one of LOW, MEDIUM, HIGH, UNKNOWN: an extracted value outside of the
    four becomes UNKNOWN, and the reply still has status "success". *)
Theorem C5_risk_level (w : world) (email : Main.EmailRequest)
    (log : list event) (raw : str) :
  delivered w Main.API_URL (Main.payload email) = Some raw ->
  has_required_fields (clean_response (strip raw)) = true ->
  let extracted :=
    last_nonempty_match RISK_LEVEL (lit "UNKNOWN")
      (content_lines (clean_response (strip raw))) in
  exists r log' level details,
    Main.summarize_email w email log = (inr r, log') /\
    get (parse_fields (content_lines (clean_response (strip raw)))) RISK_LEVEL =
      Some extracted /\
    Main.status r = lit "success" /\
    Main.risk_assessment r = level ++ lit " - " ++ details /\
    In level risk_levels /\
    (In extracted risk_levels -> level = extracted) /\
    (~ In extracted risk_levels -> level = lit "UNKNOWN").
Proof.
  intros D F extracted. rewrite (main_delivered w email log raw D).
  unfold main_reply. rewrite F.
  eexists. eexists. exists (normalize_risk_level extracted). eexists.
  split; [reflexivity|]. split; [apply get_parse_fields|].
  split; [reflexivity|]. split; [reflexivity|].
  split; [apply normalize_risk_level_in|]. split.
  - intros Hin. unfold normalize_risk_level.
    replace (existsb (str_eqb extracted) risk_levels) with true; [reflexivity|].
    symmetry. apply existsb_exists. exists extracted. split; [exact Hin | apply str_eqb_refl].
  - apply normalize_risk_level_other.
Qed.

Lemma C5_risk_level_witness :
  exists r log' level details,
    Main.summarize_email
      (world_replying
         (lit "SUMMARY: Invoice" ++ LF ++ lit "RISK_LEVEL: CRITICAL" ++ LF
            ++ lit "RISK_DETAILS: Odd sender"))
      sample_email [] = (inr r, log') /\
    Main.status r = lit "success" /\
    Main.risk_assessment r = level ++ lit " - " ++ details /\
    level = lit "UNKNOWN".
Proof.
  destruct (C5_risk_level
              (world_replying
                 (lit "SUMMARY: Invoice" ++ LF ++ lit "RISK_LEVEL: CRITICAL" ++ LF
                    ++ lit "RISK_DETAILS: Odd sender"))
              sample_email []
              (lit "SUMMARY: Invoice" ++ LF ++ lit "RISK_LEVEL: CRITICAL" ++ LF
                 ++ lit "RISK_DETAILS: Odd sender")
              eq_refl eq_refl)
    as (r & log' & level & details & Hr & _ & Hs & Ha & _ & _ & Hu).
  exists r, log', level, details. repeat split; try assumption.
  apply Hu. vm_compute. intros [H | [H | [H | [H | []]]]]; discriminate.
Defined.

(** C6 — The link scan maps the distinct strings found by the pattern
    (http:// or https://, then one or more characters that are not
    whitespace), in the order of their first occurrence and once each, to
    SAFE or INVALID as the URL validator says, and to UNKNOWN when there
    is no validator.  Each key is such a token of the body, running up to
    whitespace or the end, and every place of the body where the pattern
    matches lies inside one of them.  "Click http://example.com/pay now"
    without a validator gives {"http://example.com/pay": UNKNOWN}.  The
    strings found are the tokens of the body read from left to right,
    each taken whole, and no other list is; so a scheme inside a token
    gives no key of its own. *)
Theorem C6_link_scan (validators : option (str -> bool)) (body : str) :
  let links := Main.extract_links body in
  let result := Main.scan_links validators links in
  result = map (fun link => (link, classify validators link)) (dedup links) /\
  NoDup (keys result) /\
  (forall link, In link (keys result) <-> In link links) /\
  (forall link,
     In link links -> is_url_token link /\ exists i, token_at body link i) /\
  (forall pre scheme c post,
     body = pre ++ scheme ++ c :: post ->
     scheme = lit "http://" \/ scheme = lit "https://" ->
     isspace c = false ->
     exists link i,
       In link links /\ token_at body link i /\
       i <= length pre < i + length link) /\
  (forall link,
     In link links -> get result link = Some (classify validators link)) /\
  Main.scan_links None (Main.extract_links pay_body) =
    [(lit "http://example.com/pay", lit "UNKNOWN")] /\
  url_matches body links /\
  (forall found, url_matches body found -> found = links) /\
  Main.extract_links links_body =
    [ lit "https://b.org,"; lit "http://a.com/x"; lit "https://b.org,";
      lit "https://https://g" ] /\
  Main.scan_links (Some https_only) (Main.extract_links links_body) =
    [ (lit "https://b.org,", lit "SAFE");
      (lit "http://a.com/x", lit "INVALID");
      (lit "https://https://g", lit "SAFE") ].
Proof.
  intros links result. unfold result. rewrite scan_links_spec, keys_map.
  split; [reflexivity|]. split; [apply dedup_nodup|].
  split; [intros link; apply dedup_in|].
  split; [intros link H; apply (findall_url_sound body 0 link H)|].
  split; [|split;
             [|split;
                 [reflexivity
                 |split; [apply findall_url_matches
                         |split; [apply url_matches_unique
                                 |split; reflexivity]]]]].
  - intros pre scheme c post E Hs Hc.
    apply (findall_url_complete body 0 (length pre)); [lia|].
    rewrite E, skipn_app, skipn_all, Nat.sub_diag. cbn [skipn app].
    apply match_url_complete; assumption.
  - intros link H. apply get_map, dedup_in, H.
Qed.

Lemma C6_link_scan_witness :
  (is_url_token (lit "http://example.com/pay") /\
   exists link i,
     In link (Main.extract_links pay_body) /\ token_at pay_body link i /\
     i <= 6 < i + length link) /\
  [lit "http://a.com"; lit "https://https://g"] =
    Main.extract_links (lit "http://a.com https://https://g").
Proof.
  split.
  - destruct (C6_link_scan None pay_body) as (_ & _ & _ & H & C & _).
    split.
    + apply (H (lit "http://example.com/pay")). left. reflexivity.
    + apply (C (lit "Click ") (lit "http://") (ch "e") (lit "xample.com/pay now")).
      * reflexivity.
      * left. reflexivity.
      * reflexivity.
  - destruct (C6_link_scan None (lit "http://a.com https://https://g"))
      as (_ & _ & _ & _ & _ & _ & _ & _ & U & _).
    apply U.
    apply (matches_here _ (lit "http://a.com") (lit " https://https://g")).
    { split; [reflexivity|]. split; [|reflexivity].
      exists (lit "http://"), (lit "a.com"). split; [reflexivity|].
      split; [left; reflexivity|]. split; [discriminate|].
      repeat constructor. }
    apply matches_skip.
    { intros (token & post & E & (scheme & rest & -> & [-> | ->] & _) & _);
        discriminate E. }
    apply (matches_here _ (lit "https://https://g") []).
    { split; [reflexivity|]. split; [|exact I].
      exists (lit "https://"), (lit "https://g"). split; [reflexivity|].
      split; [right; reflexivity|]. split; [discriminate|].
      repeat constructor. }
    constructor.
Defined.

(** C7 — as the code has it.  The emptiness check is the gate of the
    form: with an empty field the click shows "Please fill in all fields"
    and sends nothing, so no completion call follows; with four non-empty
    fields the request goes to the backend.  The backend handler has no
    such check: it posts every inquiry it receives to the completion
    API. *)
Theorem C7_empty_fields_stop_at_the_form (w : world) (log : list event)
    (subject sender recipient body : str) :
  (subject = [] \/ sender = [] \/ recipient = [] \/ body = [] ->
   App.on_click w subject sender recipient body log =
   (inr App.FillInAllFields, log)) /\
  (subject <> [] -> sender <> [] -> recipient <> [] -> body <> [] ->
   exists result payload,
     App.on_click w subject sender recipient body log =
     (inr (App.Summarized result), log ++ [HttpPost App.BACKEND_URL payload])) /\
  (forall email,
     exists r,
       Main.summarize_email w email log =
       (inr r, log ++ [HttpPost Main.API_URL (Main.payload email)])).
Proof.
  split; [|split].
  - intros H. unfold App.on_click. rewrite (forallb_truthy_false _ _ _ _ H).
    reflexivity.
  - intros H1 H2 H3 H4. unfold App.on_click.
    apply truthy_iff in H1, H2, H3, H4.
    cbn [forallb]. rewrite H1, H2, H3, H4. cbn [andb negb].
    destruct (app_summarize_email_run w subject sender recipient body log)
      as (result & payload & E).
    exists result, payload. unfold bind. rewrite E. reflexivity.
  - intros email. destruct (main_run w email log) as (r & Hr & _).
    exists r. exact Hr.
Qed.

Lemma C7_empty_fields_stop_at_the_form_witness :
  App.on_click (world_replying []) [] (lit "billing@example.com")
    (lit "me@example.com") (lit "Pay now") [] =
  (inr App.FillInAllFields, []).
Proof.
  destruct (C7_empty_fields_stop_at_the_form (world_replying []) []
              [] (lit "billing@example.com") (lit "me@example.com") (lit "Pay now"))
    as (H & _).
  apply H. left. reflexivity.
Defined.

(** The claim does not hold of the backend: an inquiry with an empty
    subject is posted to the completion API. *)
Lemma C7_counterexample :
  (Main.subject no_subject_email = [] /\
   exists r,
     Main.summarize_email (world_replying empty_summary_reply) no_subject_email [] =
     (inr r, [HttpPost Main.API_URL (Main.payload no_subject_email)])) /\
  ~ (forall w email log r log',
       Main.subject email = [] \/ Main.sender email = [] \/
       Main.recipient email = [] \/ Main.body email = [] ->
       Main.summarize_email w email log = (inr r, log') ->
       log' = log).
Proof.
  split.
  - split; [reflexivity|]. eexists. reflexivity.
  - intros H.
    specialize (H (world_replying empty_summary_reply) no_subject_email []
                  _ _ (or_introl eq_refl) eq_refl).
    discriminate H.
Qed.




(** C9 — the empty reply in the two backends.  The completion text ""
    cleans to the empty string; [sampleSummary.py] answers it with "API
    returned empty or invalid response", [main.py] with "API response
    missing required fields". *)
Theorem C9_empty_reply_in_main :
  clean_response (strip []) = [] /\
  (exists log',
     SampleSummary.summarize_email (world_replying []) sample_email' [] =
     (inr {| SampleSummary.summary := lit "Error: Empty response";
             SampleSummary.status := lit "error";
             SampleSummary.risk_assessment := lit "UNKNOWN - Empty response";
             SampleSummary.error :=
               Some (lit "API returned empty or invalid response") |},
      log')) /\
  (exists log',
     Main.summarize_email (world_replying []) sample_email [] =
     (inr {| Main.summary := lit "Error: Invalid response format";
             Main.status := lit "error";
             Main.risk_assessment := lit "UNKNOWN - Response format error";
             Main.error := Some (lit "API response missing required fields");
             Main.link_scan_results := None |},
      log')).
Proof.
  split; [reflexivity|]. split.
  - apply (sample_empty_reply (world_replying []) sample_email' [] []); reflexivity.
  - apply (main_empty_reply (world_replying []) sample_email [] []); reflexivity.
Qed.

(** C10 — A line that starts with a field marker records the line with
    every occurrence of the marker removed, not only the leading one, and
    then trimmed: "SUMMARY: see SUMMARY: above" records "see  above". *)
Theorem C10_every_occurrence_removed :
  (forall seen line field,
     In field required_fields ->
     startswith line field = true ->
     strip (delete_occurrences field line) <> [] ->
     get (parse_fields (seen ++ [line])) field =
     Some (strip (delete_occurrences field line))) /\
  (forall line field,
     In field required_fields ->
     replace line field [] = delete_occurrences field line) /\
  delete_occurrences SUMMARY (lit "SUMMARY: see SUMMARY: above") = lit " see  above" /\
  get (parse_fields [lit "SUMMARY: see SUMMARY: above"]) SUMMARY =
    Some (lit "see  above").
Proof.
  assert (R : forall line field,
             In field required_fields ->
             replace line field [] = delete_occurrences field line).
  { intros line field Hf. destruct (required_fields_unbordered field Hf) as [U N].
    apply replace_delete_occurrences; assumption. }
  split; [|split; [exact R | split; reflexivity]].
  intros seen line field Hf Hs Hv.
  assert (Hc : exists current, get (parse_fields seen) field = Some current).
  { destruct (get_parse_fields seen) as (H1 & H2 & H3).
    destruct Hf as [<- | [<- | [<- | []]]]; eexists; eassumption. }
  destruct Hc as [current Hc].
  rewrite (parse_fields_step seen line field current Hf Hc), Hs, (R line field Hf).
  apply truthy_iff in Hv. rewrite Hv. reflexivity.
Qed.

Lemma C10_every_occurrence_removed_witness :
  get (parse_fields ([lit "SUMMARY: first"] ++ [lit "SUMMARY: see SUMMARY: above"])) SUMMARY =
  Some (strip (delete_occurrences SUMMARY (lit "SUMMARY: see SUMMARY: above"))).
Proof.
  destruct C10_every_occurrence_removed as (H & _).
  apply H.
  - left. reflexivity.
  - reflexivity.
  - discriminate.
Defined.

(** * Further properties of the code *)

(** ** The two validators of [main.py] *)

Lemma check_messages_total (msgs : list pyobj) :
  forallb is_dict msgs = true -> exists b, Main.check_messages msgs = inr b.
Proof.
  induction msgs as [|msg msgs IH]; [intros _; exists true; reflexivity|].
  cbn [forallb Main.check_messages]. rewrite andb_true_iff. intros [Hd Hr].
  destruct msg; try discriminate. cbn [py_contains rbind].
  destruct (mem d (lit "role")); cbn [negb]; [|exists false; reflexivity].
  destruct (mem d (lit "content")); cbn [negb]; [|exists false; reflexivity].
  apply IH, Hr.
Qed.

Lemma check_messages_true (msgs : list pyobj) :
  forallb is_dict msgs = true ->
  (Main.check_messages msgs = inr true <-> Forall well_formed_message msgs).
Proof.
  induction msgs as [|msg msgs IH]; [intros _; split; [constructor | reflexivity]|].
  cbn [forallb Main.check_messages]. rewrite andb_true_iff. intros [Hd Hr].
  destruct msg; try discriminate. cbn [py_contains rbind].
  split.
  - destruct (mem d (lit "role")) eqn:R; cbn [negb]; [|discriminate].
    destruct (mem d (lit "content")) eqn:C; cbn [negb]; [|discriminate].
    intros H. constructor; [exists d; repeat split; assumption | apply IH; assumption].
  - intros H. inversion H as [|x l (d' & E & R & C) Hl]; subst.
    injection E as <-. rewrite R, C. cbn [negb]. apply IH; assumption.
Qed.

Lemma well_formed_messages_dicts (msgs : list pyobj) :
  Forall well_formed_message msgs -> forallb is_dict msgs = true.
Proof.
  induction 1 as [|msg msgs (d & -> & _) _ IH]; [reflexivity|].
  cbn [forallb is_dict]. exact IH.
Qed.

(** X1 — [validate_payload] never raises; it answers [True] exactly for a
    mapping with a "model" key and a "messages" list of mappings that each
    have "role" and "content"; and it accepts the payload built for any
    inquiry, so the "Invalid payload structure." branch is never taken. *)
Theorem X1_validate_payload :
  (forall data, exists b, Main.validate_payload data = inr b) /\
  (forall data,
     Main.validate_payload data = inr true <->
     exists d msgs,
       data = PDict d /\ mem d (lit "model") = true /\
       get d (lit "messages") = Some (PList msgs) /\
       Forall well_formed_message msgs) /\
  (forall email, Main.validate_payload (Main.payload email) = inr true).
Proof.
  split; [|split; [|reflexivity]].
  - intros data. unfold Main.validate_payload.
    destruct data; try (exists false; reflexivity).
    cbn [is_dict negb py_contains rbind py_getitem].
    destruct (mem d (lit "model")); cbn [negb]; [|exists false; reflexivity].
    unfold mem, getitem. destruct (get d (lit "messages")) as [v|];
      cbn [negb rbind]; [|exists false; reflexivity].
    destruct v; try (exists false; reflexivity).
    destruct (forallb is_dict l) eqn:F; cbn [negb]; [|exists false; reflexivity].
    apply check_messages_total, F.
  - intros data. unfold Main.validate_payload. split.
    + destruct data; try discriminate.
      cbn [is_dict negb py_contains rbind py_getitem].
      destruct (mem d (lit "model")) eqn:M; cbn [negb]; [|discriminate].
      unfold mem, getitem. destruct (get d (lit "messages")) as [v|] eqn:G;
        cbn [negb rbind]; [|discriminate].
      destruct v; try discriminate.
      destruct (forallb is_dict l) eqn:F; cbn [negb]; [|discriminate].
      intros H. exists d, l. repeat split; try assumption.
      apply check_messages_true; assumption.
    + intros (d & msgs & -> & M & G & W).
      cbn [is_dict negb py_contains rbind py_getitem]. rewrite M. cbn [negb].
      unfold mem, getitem. rewrite G. cbn [negb rbind].
      rewrite (well_formed_messages_dicts msgs W). cbn [negb].
      apply check_messages_true; [apply well_formed_messages_dicts|]; assumption.
Qed.

(** What the envelope validator lets through: a mapping whose [choices]
    is a non-empty list, whose first choice is a mapping with a [message],
    and whose message passes the test ["content" in message]. *)
Lemma validate_response_accepts (envelope : pyobj) :
  Main.validate_response envelope = inr None <->
  exists d first rest message,
    envelope = PDict d /\
    get d (lit "choices") = Some (PList (PDict first :: rest)) /\
    get first (lit "message") = Some message /\
    py_contains (lit "content") message = inr true.
Proof.
  unfold Main.validate_response. split.
  - destruct envelope as [| | | | |l|d]; try discriminate.
    cbn [is_dict negb py_contains py_getitem rbind]. unfold mem, getitem.
    destruct (get d (lit "choices")) as [choices|] eqn:C; cbn [negb rbind];
      [|discriminate].
    destruct choices as [| | | | |l|?]; try discriminate.
    cbn [is_list negb py_truthy]. destruct l as [|first rest]; [discriminate|].
    cbn [negb py_getitem0 rbind].
    destruct first as [| | | |s|l|first]; try discriminate.
    + cbn [py_contains rbind py_getitem].
      destruct (contains (lit "message") s); discriminate.
    + cbn [py_contains rbind py_getitem].
      destruct (existsb _ l); discriminate.
    + cbn [py_contains rbind py_getitem]. unfold mem, getitem.
      destruct (get first (lit "message")) as [message|] eqn:M; cbn [negb rbind];
        [|discriminate].
      destruct (py_contains (lit "content") message) as [e|[|]] eqn:P;
        cbn [negb rbind]; try discriminate.
      intros _. exists d, first, rest, message. repeat split; assumption.
  - intros (d & first & rest & message & -> & C & M & P).
    cbn [is_dict negb py_contains py_getitem rbind]. unfold mem, getitem.
    rewrite C. cbn [is_list negb py_truthy rbind py_getitem0 py_contains py_getitem].
    unfold mem, getitem. rewrite M. cbn [negb rbind]. rewrite P. reflexivity.
Qed.

(** [main.py] on a decoded status-200 body, step by step: the validator's
    verdict first, then the extraction of the text. *)
Lemma main_run_envelope (w : world) (email : Main.EmailRequest) (log : list event)
    (resp : Response) (envelope : pyobj) :
  session_post w Main.API_URL (Main.payload email) = Returns resp ->
  status_code resp = 200%Z ->
  json resp = inr envelope ->
  Main.summarize_email w email log =
  (inr
     match Main.validate_response envelope with
     | inl e => Main.failed (lit "Request failed: " ++ exc_str w e)
     | inr (Some msg) =>
         if truthy msg then Main.failed msg
         else
           match reply_text envelope with
           | inl e => Main.failed (lit "Request failed: " ++ exc_str w e)
           | inr raw =>
               main_reply
                 (Main.scan_links (validators_url w)
                    (Main.extract_links (Main.body email)))
                 (clean_response raw)
           end
     | inr None =>
         match reply_text envelope with
         | inl e => Main.failed (lit "Request failed: " ++ exc_str w e)
         | inr raw =>
             main_reply
               (Main.scan_links (validators_url w)
                  (Main.extract_links (Main.body email)))
               (clean_response raw)
         end
     end,
   log ++ [HttpPost Main.API_URL (Main.payload email)]).
Proof.
  intros P S J. unfold Main.summarize_email.
  rewrite bind_lift.
  change (Main.validate_payload (Main.payload email)) with (@inr exn bool true).
  cbn [negb]. unfold try_except, bind at 1, post. rewrite P, S.
  change (200 =? 200)%Z with true. cbv iota.
  rewrite bind_lift, J, bind_lift.
  destruct (Main.validate_response envelope) as [e|[msg|]]; [reflexivity| |].
  - destruct (truthy msg); [reflexivity|].
    rewrite io_reply_text, bind_lift.
    destruct (reply_text envelope) as [e|raw]; [reflexivity|].
    rewrite main_parsed. reflexivity.
  - rewrite io_reply_text, bind_lift.
    destruct (reply_text envelope) as [e|raw]; [reflexivity|].
    rewrite main_parsed. reflexivity.
Qed.

(** X2 — [validate_response] returns no error exactly for a mapping whose
    "choices" is a non-empty list, whose first choice is a mapping with a
    "message", and whose message passes ["content" in message] (a mapping
    with that key, but also a list or a string that contains "content");
    every error it returns is one of its four texts; and when it raises
    (on a first choice or a message that is no container), it raises
    [TypeError]. *)
Theorem X2_validate_response (envelope : pyobj) :
  (Main.validate_response envelope = inr None <->
   exists d first rest message,
     envelope = PDict d /\
     get d (lit "choices") = Some (PList (PDict first :: rest)) /\
     get first (lit "message") = Some message /\
     py_contains (lit "content") message = inr true) /\
  (forall msg,
     Main.validate_response envelope = inr (Some msg) ->
     In msg
       [ lit "Response must be a dictionary.";
         lit "Response must contain a 'choices' field with a list.";
         lit "The 'choices' list is empty.";
         lit "The first choice must contain a 'message' field with 'content'." ]) /\
  (forall e, Main.validate_response envelope = inl e -> e = TypeError) /\
  (forall raw,
     envelope_content envelope = Some raw ->
     Main.validate_response envelope = inr None).
Proof.
  split; [apply validate_response_accepts|]. split; [|split].
  - intros msg. unfold Main.validate_response.
    repeat match goal with
           | |- context [rbind ?m _] => destruct m as [?|?]; cbn [rbind]
           | |- context [if ?b then _ else _] => destruct b
           end;
      try discriminate; intros H; injection H as <-; cbn; tauto.
  - intros e. unfold Main.validate_response.
    destruct envelope as [| | | | |l|d]; try discriminate.
    cbn [is_dict negb py_contains py_getitem rbind]. unfold mem, getitem.
    destruct (get d (lit "choices")) as [choices|]; cbn [negb rbind]; [|discriminate].
    destruct choices as [| | | | |l|?]; try discriminate.
    cbn [is_list negb py_truthy]. destruct l as [|first rest]; [discriminate|].
    cbn [negb py_getitem0 rbind].
    destruct first as [| | | |s|l|first]; cbn [py_contains rbind py_getitem];
      try (intros H; injection H as <-; reflexivity).
    + destruct (contains (lit "message") s); cbn [negb rbind]; [|discriminate].
      intros H; injection H as <-; reflexivity.
    + destruct (existsb _ l); cbn [negb rbind]; [|discriminate].
      intros H; injection H as <-; reflexivity.
    + unfold mem, getitem.
      destruct (get first (lit "message")) as [message|]; cbn [negb rbind];
        [|discriminate].
      destruct message; cbn [py_contains rbind];
        try (intros H; injection H as <-; reflexivity);
        match goal with
        | |- context [if negb ?b then _ else _] => destruct b; discriminate
        end.
  - intros raw H. apply (reply_text_ok envelope raw H).
Qed.

(** X3 — A completion whose "content" is not a string (JSON [null], a
    number, a list) passes [validate_response]; the handler then fails on
    [.strip()] and answers "Request failed: ..." with the text of the
    [AttributeError]. *)
Theorem X3_non_string_content (w : world) (email : Main.EmailRequest)
    (log : list event) (resp : Response)
    (d first : dict pyobj) (rest : list pyobj) (message : dict pyobj) (v : pyobj) :
  session_post w Main.API_URL (Main.payload email) = Returns resp ->
  status_code resp = 200%Z ->
  json resp = inr (PDict d) ->
  get d (lit "choices") = Some (PList (PDict first :: rest)) ->
  get first (lit "message") = Some (PDict message) ->
  get message (lit "content") = Some v ->
  (forall s, v <> PStr s) ->
  Main.validate_response (PDict d) = inr None /\
  Main.summarize_email w email log =
  (inr (Main.failed (lit "Request failed: " ++ exc_str w AttributeError)),
   log ++ [HttpPost Main.API_URL (Main.payload email)]).
Proof.
  intros P S J C M K V.
  assert (Hv : Main.validate_response (PDict d) = inr None).
  { apply validate_response_accepts. exists d, first, rest, (PDict message).
    repeat split; try assumption. cbn [py_contains]. unfold mem. rewrite K. reflexivity. }
  split; [exact Hv|].
  rewrite (main_run_envelope w email log resp (PDict d) P S J), Hv.
  unfold reply_text. cbn [py_getitem]. unfold getitem. rewrite C.
  cbn [rbind py_getitem0 py_getitem]. unfold getitem. rewrite M.
  cbn [rbind py_getitem]. unfold getitem. rewrite K. cbn [rbind].
  destruct v; try reflexivity. exfalso. apply (V s). reflexivity.
Qed.

Lemma X3_non_string_content_witness :
  Main.summarize_email world_null_content sample_email [] =
  (inr (Main.failed
          (lit "Request failed: 'NoneType' object has no attribute 'strip'")),
   [HttpPost Main.API_URL (Main.payload sample_email)]).
Proof.
  refine (proj2 (X3_non_string_content world_null_content sample_email []
                   _ _ _ _ _ _ eq_refl eq_refl eq_refl eq_refl eq_refl eq_refl _)).
  intros s. discriminate.
Defined.

(** ** Cleaning twice *)

Lemma tag_free_no_think (s : str) : tag_free s = true -> contains THINK s = false.
Proof.
  intros T. destruct (contains THINK s) eqn:C; [|reflexivity].
  exfalso. apply (tag_free_sound s T).
  apply contains_iff in C as (pre & post & ->).
  exists pre, (lit "think"), post. split; [reflexivity|].
  split; [discriminate|]. repeat constructor; discriminate.
Qed.

Lemma replace_no_occurrence (old new s : str) :
  old <> [] -> contains old s = false -> replace s old new = s.
Proof.
  intros Ho. unfold replace. destruct old as [|x old]; [contradiction|].
  induction s as [|c r IH]; [reflexivity|].
  cbn [contains]. rewrite orb_false_iff. intros [H1 H2].
  cbn [replace_aux]. rewrite H1, IH by exact H2. reflexivity.
Qed.

Lemma isspace_cr_lf (c : char) :
  isspace c = false -> char_eqb 13%N c = false /\ char_eqb 10%N c = false.
Proof.
  intros H. split; apply char_eqb_neq; intros <-; discriminate H.
Qed.

Lemma replace_crlf_last (z : char) :
  isspace z = false ->
  forall s k,
    k <= length s ->
    replace_aux CRLF LF k (s ++ [z]) = replace_aux CRLF LF k s ++ [z].
Proof.
  intros Hz. destruct (isspace_cr_lf z Hz) as [Z13 Z10].
  induction s as [|c r IH]; intros k Hk.
  - destruct k; [|simpl in Hk; lia].
    cbn [app replace_aux]. unfold CRLF at 1. cbn [startswith]. rewrite Z13.
    reflexivity.
  - cbn [app replace_aux]. destruct k as [|k]; [|apply IH; simpl in Hk; lia].
    assert (E : startswith (c :: r ++ [z]) CRLF = startswith (c :: r) CRLF).
    { unfold CRLF. cbn [startswith]. destruct r as [|c' r']; [|reflexivity].
      cbn [app startswith]. rewrite Z10. cbn [andb].
      rewrite !andb_false_r. reflexivity. }
    rewrite E. destruct (startswith (c :: r) CRLF) eqn:S.
    + rewrite IH; [reflexivity|].
      unfold CRLF in S. cbn [startswith] in S. destruct r; [|simpl; lia].
      rewrite andb_false_r in S. discriminate.
    + rewrite IH by lia. reflexivity.
Qed.

(** A trimmed text begins and ends with characters that are not whitespace. *)
Lemma trimmed_ends (x : str) :
  strip x = x ->
  match x with [] => True | c :: _ => isspace c = false end /\
  match rev x with [] => True | z :: _ => isspace z = false end.
Proof.
  intros E. split.
  - rewrite <- E. unfold strip. apply rstrip_head, lstrip_head.
  - rewrite <- E. unfold strip, rstrip. rewrite rev_involutive. apply lstrip_head.
Qed.

Lemma strip_fixed (y : str) :
  match y with [] => True | c :: _ => isspace c = false end ->
  match rev y with [] => True | z :: _ => isspace z = false end ->
  strip y = y.
Proof.
  intros H1 H2. unfold strip. rewrite (lstrip_fixed y H1).
  unfold rstrip. rewrite (lstrip_fixed (rev y) H2). apply rev_involutive.
Qed.

(** Rewriting CR LF in a trimmed text leaves it trimmed. *)
Lemma replace_crlf_trimmed (x : str) :
  strip x = x -> strip (replace x CRLF LF) = replace x CRLF LF.
Proof.
  intros E. destruct (trimmed_ends x E) as [H1 H2].
  unfold replace, CRLF at 1 3. fold CRLF. apply strip_fixed.
  - destruct x as [|c r]; [exact I|].
    destruct (isspace_cr_lf c H1) as [C13 _].
    cbn [replace_aux]. unfold CRLF at 1. cbn [startswith]. rewrite C13.
    exact H1.
  - destruct (rev x) as [|z u] eqn:R.
    + apply (f_equal (@rev _)) in R. rewrite rev_involutive in R. subst x. exact I.
    + apply (f_equal (@rev _)) in R. rewrite rev_involutive in R. cbn [rev] in R.
      subst x. rewrite (replace_crlf_last z H2 (rev u) 0 ltac:(lia)).
      rewrite rev_app_distr. exact H2.
Qed.

(** X4 — Cleaning an already cleaned reply.  A cleaned text never holds
    the marker "<think>"; a second [clean_response] only rewrites the CR
    LF pairs that the first one left (it replaces each pair once, so
    "\r\r\n" leaves "\r\n"); hence the second pass changes nothing when
    no CR LF is left, and it does change "a\r\r\nb". *)
Theorem X4_clean_response_twice (content : str) :
  contains THINK (clean_response content) = false /\
  clean_response (clean_response content) =
    replace (clean_response content) CRLF LF /\
  (contains CRLF (clean_response content) = false ->
   clean_response (clean_response content) = clean_response content) /\
  clean_response (clean_response [97; 13; 13; 10; 98]%N) <>
    clean_response [97; 13; 13; 10; 98]%N.
Proof.
  assert (T := clean_response_tag_free content).
  assert (N := tag_free_no_think _ T).
  assert (E : clean_response (clean_response content) =
              replace (clean_response content) CRLF LF).
  { unfold clean_response at 1. rewrite N, (sub_tags_fixed _ T).
    apply replace_crlf_trimmed. unfold clean_response. apply strip_idem. }
  split; [exact N|]. split; [exact E|]. split.
  - intros C. rewrite E. apply replace_no_occurrence; [discriminate | exact C].
  - discriminate.
Qed.

(** ** The parsed entries *)

Lemma last_cases {A} (l : list A) (d : A) : last l d = d \/ In (last l d) l.
Proof.
  induction l as [|x l IH]; [left; reflexivity|].
  destruct l as [|y l]; [right; left; reflexivity|].
  change (last (x :: y :: l) d) with (last (y :: l) d).
  destruct IH as [IH | IH]; [left; exact IH | right; right; exact IH].
Qed.

Lemma last_nonempty_match_cases (field default : str) (lines : list str) :
  last_nonempty_match field default lines = default \/
  exists line,
    In line lines /\ nonempty_match field line = true /\
    last_nonempty_match field default lines = field_value field line.
Proof.
  unfold last_nonempty_match.
  destruct (last_cases (map (field_value field) (filter (nonempty_match field) lines))
              default) as [H | H]; [left; exact H|].
  right. apply in_map_iff in H as (line & E & Hin).
  apply filter_In in Hin as [Hin Hm]. exists line. repeat split; try assumption.
  symmetry. exact E.
Qed.

Lemma last_nonempty_match_trimmed (field default : str) (lines : list str) :
  default <> [] -> strip default = default ->
  last_nonempty_match field default lines <> [] /\
  strip (last_nonempty_match field default lines) =
    last_nonempty_match field default lines.
Proof.
  intros Hd Hs.
  destruct (last_nonempty_match_cases field default lines)
    as [-> | (line & _ & Hm & ->)]; [split; assumption|].
  unfold nonempty_match in Hm. apply andb_true_iff in Hm as [_ Hm]. split.
  - apply truthy_iff, Hm.
  - unfold field_value. apply strip_idem.
Qed.

(** X5 — The parsed entries.  Whatever the lines are, the dictionary
    keeps its three keys in their order, and each value is a non-empty
    trimmed text; so the summary of a successful reply is never empty. *)
Theorem X5_parsed_entries (lines : list str) :
  keys (parse_fields lines) = [SUMMARY; RISK_LEVEL; RISK_DETAILS] /\
  (forall field value,
     get (parse_fields lines) field = Some value ->
     In field required_fields /\ value <> [] /\ strip value = value) /\
  (forall w email log raw,
     delivered w Main.API_URL (Main.payload email) = Some raw ->
     has_required_fields (clean_response (strip raw)) = true ->
     exists r log',
       Main.summarize_email w email log = (inr r, log') /\
       Main.summary r <> [] /\ strip (Main.summary r) = Main.summary r).
Proof.
  split; [|split].
  - rewrite parse_fields_spec. reflexivity.
  - intros field value. rewrite parse_fields_spec. cbn [get].
    destruct (str_eqb SUMMARY field) eqn:E1.
    { apply str_eqb_eq in E1. subst field. intros H; injection H as <-.
      split; [left; reflexivity|].
      apply last_nonempty_match_trimmed; [discriminate | reflexivity]. }
    destruct (str_eqb RISK_LEVEL field) eqn:E2.
    { apply str_eqb_eq in E2. subst field. intros H; injection H as <-.
      split; [right; left; reflexivity|].
      apply last_nonempty_match_trimmed; [discriminate | reflexivity]. }
    destruct (str_eqb RISK_DETAILS field) eqn:E3; [|discriminate].
    apply str_eqb_eq in E3. subst field. intros H; injection H as <-.
    split; [right; right; left; reflexivity|].
    apply last_nonempty_match_trimmed; [discriminate | reflexivity].
  - intros w email log raw D F. rewrite (main_delivered w email log raw D).
    eexists. eexists. split; [reflexivity|].
    unfold main_reply. rewrite F. cbn [Main.summary].
    apply last_nonempty_match_trimmed; [discriminate | reflexivity].
Qed.

Lemma last_nonempty_match_skip (field default line : str) (before after : list str) :
  nonempty_match field line = false ->
  last_nonempty_match field default (before ++ line :: after) =
  last_nonempty_match field default (before ++ after).
Proof.
  intros H. unfold last_nonempty_match. rewrite !filter_app. cbn [filter].
  rewrite H. reflexivity.
Qed.

(** X6 — A line that starts with none of the three markers, or that has
    nothing but the marker, changes no entry: the result is the same as
    without that line, wherever it stands. *)
Theorem X6_other_lines_ignored (before after : list str) (line : str) :
  (forall field,
     In field required_fields ->
     startswith line field = false \/ strip (replace line field []) = []) ->
  parse_fields (before ++ line :: after) = parse_fields (before ++ after).
Proof.
  intros H.
  assert (M : forall field, In field required_fields -> nonempty_match field line = false).
  { intros field Hf. unfold nonempty_match, field_value.
    destruct (H field Hf) as [-> | ->]; [reflexivity | apply andb_false_r]. }
  rewrite !parse_fields_spec.
  rewrite !last_nonempty_match_skip; try reflexivity; apply M.
  - right; right; left; reflexivity.
  - right; left; reflexivity.
  - left; reflexivity.
Qed.

Lemma X6_other_lines_ignored_witness :
  parse_fields ([lit "SUMMARY: Invoice"] ++ lit "Here is my analysis:" ::
                [lit "RISK_LEVEL: LOW"]) =
  parse_fields ([lit "SUMMARY: Invoice"] ++ [lit "RISK_LEVEL: LOW"]).
Proof.
  apply X6_other_lines_ignored.
  intros field [<- | [<- | [<- | []]]]; left; reflexivity.
Defined.

(** ** More on the link scan *)

Lemma list_sum_cons (x : nat) (l : list nat) : list_sum (x :: l) = x + list_sum l.
Proof. reflexivity. Qed.

Lemma findall_url_total_length (s : str) :
  forall k,
    k <= length s ->
    list_sum (map (@length char) (Re.findall_url_aux k s)) + k <= length s.
Proof.
  induction s as [|c r IH]; intros k Hk; [simpl in *; lia|].
  cbn [Re.findall_url_aux]. destruct k as [|k].
  - destruct (Re.match_url (c :: r)) as [n|] eqn:M.
    + destruct (match_url_token _ _ M) as (_ & _ & L & P).
      assert (Hn : n <= length (c :: r)).
      { rewrite <- L. rewrite length_firstn. lia. }
      cbn [map]. rewrite list_sum_cons, L.
      specialize (IH (n - 1) ltac:(simpl in Hn; lia)). simpl length. lia.
    + specialize (IH 0 ltac:(lia)). simpl length. lia.
  - specialize (IH k ltac:(simpl in Hk; lia)). simpl length. lia.
Qed.

(** X7 — The scan finds nothing exactly when the body has no place where
    "http://" or "https://" is followed by a character that is not
    whitespace; a body without "://" has an empty link scan result. *)
Theorem X7_no_links (validators : option (str -> bool)) (body : str) :
  (Main.extract_links body = [] <->
   ~ exists pre scheme c post,
       body = pre ++ scheme ++ c :: post /\
       (scheme = lit "http://" \/ scheme = lit "https://") /\
       isspace c = false) /\
  (contains (lit "://") body = false ->
   Main.scan_links validators (Main.extract_links body) = []).
Proof.
  assert (A : Main.extract_links body = [] <->
              ~ exists pre scheme c post,
                  body = pre ++ scheme ++ c :: post /\
                  (scheme = lit "http://" \/ scheme = lit "https://") /\
                  isspace c = false).
  { unfold Main.extract_links, Re.findall_url. split.
    - intros E (pre & scheme & c & post & B & Hs & Hc).
      destruct (findall_url_complete body 0 (length pre) ltac:(lia))
        as (t & i & Hin & _).
      + rewrite B, skipn_app, skipn_all, Nat.sub_diag. cbn [skipn app].
        apply match_url_complete; assumption.
      + rewrite E in Hin. contradiction.
    - intros H. destruct (Re.findall_url_aux 0 body) as [|t l] eqn:E; [reflexivity|].
      exfalso. apply H.
      destruct (findall_url_sound body 0 t) as ((scheme & rest & -> & Hs & Hr & F) & i & post & S & _).
      { rewrite E. left. reflexivity. }
      destruct rest as [|c rest]; [contradiction|].
      exists (firstn i body), scheme, c, (rest ++ post).
      split; [|split; [exact Hs | inversion F; assumption]].
      rewrite <- (firstn_skipn i body) at 1. rewrite S, <- !app_assoc. reflexivity. }
  split; [exact A|].
  intros C. replace (Main.extract_links body) with (@nil str); [reflexivity|].
  symmetry. apply A. intros (pre & scheme & c & post & B & Hs & _).
  assert (contains (lit "://") body = true); [|congruence].
  apply contains_iff. destruct Hs as [-> | ->].
  - exists (pre ++ lit "http"), (c :: post). rewrite B, <- app_assoc. reflexivity.
  - exists (pre ++ lit "https"), (c :: post). rewrite B, <- app_assoc. reflexivity.
Qed.

(** X8 — The extracted links do not overlap: their lengths add up to at
    most the length of the body, and each has at least eight characters
    (a scheme and one more), so a body of [n] characters yields at most
    [n / 8] links. *)
Theorem X8_links_are_disjoint (body : str) :
  list_sum (map (@length char) (Main.extract_links body)) <= length body /\
  (forall link, In link (Main.extract_links body) -> 8 <= length link) /\
  8 * length (Main.extract_links body) <= length body.
Proof.
  assert (S := findall_url_total_length body 0 ltac:(lia)).
  assert (L : forall link, In link (Main.extract_links body) -> 8 <= length link).
  { intros link H. apply url_token_length. apply (findall_url_sound body 0 link H). }
  split; [unfold Main.extract_links, Re.findall_url; lia|]. split; [exact L|].
  unfold Main.extract_links, Re.findall_url in *.
  rewrite Nat.add_0_r in S. revert S L.
  generalize (Re.findall_url_aux 0 body) as l. generalize (length body) as n.
  intros n l. revert n. induction l as [|t l IH]; intros n S L; [simpl; lia|].
  cbn [map length] in *. rewrite list_sum_cons in S.
  pose proof (L t (or_introl eq_refl)).
  specialize (IH (n - length t) ltac:(lia) (fun x Hx => L x (or_intror Hx))). lia.
Qed.

(** ** The two backends side by side *)

Lemma sample_delivered (w : world) (email : SampleSummary.EmailRequest)
    (log : list event) (raw : str) :
  delivered w SampleSummary.API_URL (SampleSummary.payload email) = Some raw ->
  SampleSummary.summarize_email w email log =
  (inr (sample_reply (clean_response (strip raw))),
   log ++ [HttpPost SampleSummary.API_URL (SampleSummary.payload email)]).
Proof.
  intros D. apply delivered_inv in D as (resp & envelope & H1 & H2 & H3 & H4).
  destruct (sample_run w email log) as (r & Hr & Hc).
  rewrite H1, H2, H3, H4 in Hc. subst r. exact Hr.
Qed.

(** X9 — [sampleSummary.py], case by case.  One POST is made whatever
    happens.  An empty cleaned reply and a reply without the fields get
    their own placeholder replies; a parsed reply gives status "success"
    with "{level} - {details}"; a timeout is reported as a connection or
    a read timeout, exhausted retries as "Service temporarily
    unavailable", without the text of the exception; a status other than
    200 as "API Error: {status} - {text}". *)
Theorem X9_sample_reply_assembly (w : world) (email : SampleSummary.EmailRequest)
    (log : list event) :
  exists r,
    SampleSummary.summarize_email w email log =
      (inr r, log ++ [HttpPost SampleSummary.API_URL (SampleSummary.payload email)]) /\
    (forall raw,
       delivered w SampleSummary.API_URL (SampleSummary.payload email) = Some raw ->
       clean_response (strip raw) = [] ->
       r = {| SampleSummary.summary := lit "Error: Empty response";
              SampleSummary.status := lit "error";
              SampleSummary.risk_assessment := lit "UNKNOWN - Empty response";
              SampleSummary.error :=
                Some (lit "API returned empty or invalid response") |}) /\
    (forall raw,
       delivered w SampleSummary.API_URL (SampleSummary.payload email) = Some raw ->
       clean_response (strip raw) <> [] ->
       has_required_fields (clean_response (strip raw)) = false ->
       r = {| SampleSummary.summary := lit "Error: Invalid response format";
              SampleSummary.status := lit "error";
              SampleSummary.risk_assessment := lit "UNKNOWN - Response format error";
              SampleSummary.error :=
                Some (lit "API response missing required fields") |}) /\
    (forall raw,
       delivered w SampleSummary.API_URL (SampleSummary.payload email) = Some raw ->
       has_required_fields (clean_response (strip raw)) = true ->
       let lines := content_lines (clean_response (strip raw)) in
       r = {| SampleSummary.summary :=
                last_nonempty_match SUMMARY (lit "No summary available") lines;
              SampleSummary.status := lit "success";
              SampleSummary.risk_assessment :=
                normalize_risk_level
                  (last_nonempty_match RISK_LEVEL (lit "UNKNOWN") lines)
                  ++ lit " - "
                  ++ last_nonempty_match RISK_DETAILS (lit "No details provided") lines;
              SampleSummary.error := None |}) /\
    (forall connect,
       session_post w SampleSummary.API_URL (SampleSummary.payload email) =
         Raises (Timeout connect) ->
       r = SampleSummary.failed
             (if connect
              then lit "Connection timeout occurred. Please try again."
              else lit "Read timeout occurred. Please try again.")) /\
    (session_post w SampleSummary.API_URL (SampleSummary.payload email) =
       Raises RetryError ->
     r = SampleSummary.failed
           (lit "Service temporarily unavailable. Please try again later.")) /\
    (forall resp,
       session_post w SampleSummary.API_URL (SampleSummary.payload email) =
         Returns resp ->
       status_code resp <> 200%Z ->
       r = SampleSummary.failed
             (lit "API Error: " ++ str_of_int (status_code resp)
                ++ lit " - " ++ text resp)).
Proof.
  destruct (sample_run w email log) as (r & Hr & Hc).
  exists r. split; [exact Hr|].
  split; [|split; [|split; [|split; [|split]]]].
  - intros raw D E. rewrite (sample_delivered w email log raw D), E in Hr.
    injection Hr as <-. reflexivity.
  - intros raw D N F. rewrite (sample_delivered w email log raw D) in Hr.
    injection Hr as <-. unfold sample_reply. rewrite F.
    apply truthy_iff in N. rewrite N. reflexivity.
  - intros raw D F lines. rewrite (sample_delivered w email log raw D) in Hr.
    injection Hr as <-. unfold sample_reply. rewrite F.
    destruct (truthy (clean_response (strip raw))) eqn:T; [reflexivity|].
    destruct (clean_response (strip raw)); discriminate.
  - intros connect E. rewrite E in Hc. subst r. destruct connect; reflexivity.
  - intros E. rewrite E in Hc. subst r. reflexivity.
  - intros resp E S. rewrite E in Hc. apply Z.eqb_neq in S. rewrite S in Hc.
    exact Hc.
Qed.

(** X10 — For one and the same completion text whose cleaned form is not
    empty, [main.py] and [sampleSummary.py] answer with the same summary,
    status, risk assessment and error. *)
Theorem X10_backends_agree (w : world) (email : Main.EmailRequest)
    (email' : SampleSummary.EmailRequest) (log : list event) (raw : str) :
  delivered w Main.API_URL (Main.payload email) = Some raw ->
  delivered w SampleSummary.API_URL (SampleSummary.payload email') = Some raw ->
  clean_response (strip raw) <> [] ->
  exists r r' log1 log2,
    Main.summarize_email w email log = (inr r, log1) /\
    SampleSummary.summarize_email w email' log = (inr r', log2) /\
    Main.summary r = SampleSummary.summary r' /\
    Main.status r = SampleSummary.status r' /\
    Main.risk_assessment r = SampleSummary.risk_assessment r' /\
    Main.error r = SampleSummary.error r'.
Proof.
  intros D D' N.
  rewrite (main_delivered w email log raw D), (sample_delivered w email' log raw D').
  eexists. eexists. eexists. eexists. split; [reflexivity|]. split; [reflexivity|].
  unfold main_reply, sample_reply. apply truthy_iff in N. rewrite N.
  destruct (has_required_fields (clean_response (strip raw))); repeat split.
Qed.

Lemma X10_backends_agree_witness :
  exists r r' log1 log2,
    Main.summarize_email (world_replying empty_summary_reply) sample_email [] =
      (inr r, log1) /\
    SampleSummary.summarize_email (world_replying empty_summary_reply) sample_email' [] =
      (inr r', log2) /\
    Main.summary r = SampleSummary.summary r' /\
    Main.status r = SampleSummary.status r' /\
    Main.risk_assessment r = SampleSummary.risk_assessment r' /\
    Main.error r = SampleSummary.error r'.
Proof.
  apply (X10_backends_agree (world_replying empty_summary_reply) sample_email
           sample_email' [] empty_summary_reply eq_refl eq_refl).
  discriminate.
Defined.

(** X11 — [main.py] scans the links before the call, but the result of
    the scan is part of the reply only when the call succeeds: on every
    failed call [link_scan_results] is [None], otherwise it is the scan of
    the body. *)
Theorem X11_links_only_on_success (w : world) (email : Main.EmailRequest)
    (log : list event) :
  exists r,
    Main.summarize_email w email log =
      (inr r, log ++ [HttpPost Main.API_URL (Main.payload email)]) /\
    (failed_call w Main.API_URL (Main.payload email) ->
     Main.link_scan_results r = None) /\
    (~ failed_call w Main.API_URL (Main.payload email) ->
     Main.status r = lit "success" /\
     Main.link_scan_results r =
       Some (Main.scan_links (validators_url w)
               (Main.extract_links (Main.body email)))).
Proof.
  destruct (main_run w email log) as (r & Hr & Hc).
  exists r. split; [exact Hr|]. unfold failed_call.
  destruct (session_post w Main.API_URL (Main.payload email)) as [e|resp].
  { subst r. split; [reflexivity | intros H; contradiction H; exact I]. }
  destruct (status_code resp =? 200)%Z eqn:S.
  2:{ subst r. apply Z.eqb_neq in S. split; [reflexivity|].
      intros H. contradiction H. left. exact S. }
  destruct (json resp) as [e|envelope].
  { subst r. split; [reflexivity|]. intros H. contradiction H. right. exact I. }
  destruct (envelope_content envelope) as [raw|].
  - subst r. unfold main_reply.
    destruct (has_required_fields (clean_response (strip raw))).
    + split; [|split; reflexivity].
      apply Z.eqb_eq in S. intros [H | H]; [contradiction | discriminate].
    + split; [reflexivity|]. intros H. contradiction H. right. reflexivity.
  - destruct Hc as (msg & _ & ->). split; [reflexivity|].
    intros H. contradiction H. right. exact I.
Qed.

(** ** The form and the backend *)

Lemma join_in (sep x : str) (l : list str) :
  In x l -> exists a b, join sep l = a ++ x ++ b.
Proof.
  induction l as [|y l IH]; [intros []|].
  destruct l as [|z l].
  - intros [-> | []]. exists [], []. simpl. rewrite app_nil_r. reflexivity.
  - intros [-> | H].
    + exists [], (sep ++ join sep (z :: l)). reflexivity.
    + destruct (IH H) as (a & b & E).
      exists (y ++ sep ++ a), b.
      change (join sep (y :: z :: l)) with (y ++ sep ++ join sep (z :: l)).
      rewrite E, <- !app_assoc. reflexivity.
Qed.

(** Each piece of a split is a part of the text. *)
Lemma split_piece_infix (s sep piece : str) :
  sep <> [] -> In piece (split s sep) -> exists a b, s = a ++ piece ++ b.
Proof.
  intros Hsep H. destruct (join_in sep piece _ H) as (a & b & E).
  unfold split in E.
  rewrite (join_split_aux sep Hsep (length s) s [] (le_n _)) in E.
  exists a, b. exact E.
Qed.

Lemma content_lines_tag_free (content : str) :
  tag_free content = true ->
  forall line, In line (content_lines content) -> tag_free line = true.
Proof.
  intros T line H. unfold content_lines in H.
  apply in_map_iff in H as (piece & <- & Hp). apply filter_In in Hp as [Hp _].
  apply tag_free_strip.
  destruct (split_piece_infix content LF piece ltac:(discriminate) Hp) as (a & b & E).
  rewrite E in T. apply tag_free_app_r, tag_free_app_l in T. exact T.
Qed.

(** Deleting a marker that does not begin with '>' creates no tag. *)
Lemma replace_delete_tag_free (x : char) (old : str) :
  x <> ch ">" ->
  forall s k,
    tag_free s = true -> tag_free (replace_aux (x :: old) [] k s) = true.
Proof.
  intros Hx. induction s as [|c r IH]; intros k; [reflexivity|].
  cbn [tag_free]. rewrite andb_true_iff. intros [H1 H2].
  cbn [replace_aux]. destruct k as [|k]; [|apply IH, H2].
  destruct (startswith (c :: r) (x :: old)) eqn:S.
  - cbn [app]. apply IH, H2.
  - cbn [tag_free]. rewrite IH, andb_true_r by exact H2.
    rewrite !orb_true_iff in *. destruct H1 as [[H | H] | H].
    + left; left; exact H.
    + left; right. apply no_gt_iff. intros Hin.
      apply replace_aux_in in Hin. apply no_gt_iff in H.
      destruct Hin as [Hin | []]. contradiction.
    + right. destruct r as [|y r]; [discriminate|].
      cbn [head_gt] in H. apply char_eqb_eq in H. subst y.
      cbn [replace_aux startswith].
      replace (char_eqb x (ch ">")) with false
        by (symmetry; apply char_eqb_neq, Hx).
      cbn [andb head_gt]. apply char_eqb_refl.
Qed.

(** The entries parsed from a cleaned reply hold no tag. *)
Lemma last_nonempty_match_tag_free (field default : str) (lines : list str) :
  In field required_fields ->
  tag_free default = true ->
  (forall line, In line lines -> tag_free line = true) ->
  tag_free (last_nonempty_match field default lines) = true.
Proof.
  intros Hf Hd Hl.
  destruct (last_nonempty_match_cases field default lines)
    as [-> | (line & Hin & _ & ->)]; [exact Hd|].
  unfold field_value. apply tag_free_strip. unfold replace.
  destruct Hf as [<- | [<- | [<- | []]]];
    apply replace_delete_tag_free; try discriminate; apply Hl, Hin.
Qed.

Lemma clean_summary_fixed (s : str) :
  tag_free s = true -> strip s = s -> App.clean_summary (PStr s) = inr s.
Proof.
  intros T E. unfold App.clean_summary. cbn [py_contains rbind].
  rewrite (tag_free_no_think s T). cbn [py_strip]. rewrite E. reflexivity.
Qed.

Lemma setitem_same {V} (d : dict V) (k : str) (v : V) :
  get d k = Some v -> setitem d k v = d.
Proof.
  induction d as [|[k' v'] d IH]; [discriminate|].
  cbn [get setitem]. destruct (str_eqb k' k).
  - intros H; injection H as ->. reflexivity.
  - intros H. rewrite IH by exact H. reflexivity.
Qed.

Lemma main_summary_clean (w : world) (email : Main.EmailRequest)
    (log : list event) (raw : str) :
  delivered w Main.API_URL (Main.payload email) = Some raw ->
  has_required_fields (clean_response (strip raw)) = true ->
  exists r,
    Main.summarize_email w email log =
      (inr r, log ++ [HttpPost Main.API_URL (Main.payload email)]) /\
    Main.status r = lit "success" /\
    Main.summary r <> [] /\
    strip (Main.summary r) = Main.summary r /\
    tag_free (Main.summary r) = true.
Proof.
  intros D F. rewrite (main_delivered w email log raw D).
  eexists. split; [reflexivity|]. unfold main_reply. rewrite F.
  cbn [Main.status Main.summary]. split; [reflexivity|].
  split; [|split].
  - apply last_nonempty_match_trimmed; [discriminate | reflexivity].
  - apply last_nonempty_match_trimmed; [discriminate | reflexivity].
  - apply last_nonempty_match_tag_free; [left; reflexivity | reflexivity|].
    apply content_lines_tag_free, clean_response_tag_free.
Qed.

(** X12 — The summary of every successful reply of [main.py] is already
    clean: [clean_summary] of the form returns it as it is, and the form
    hands a backend answer with such a summary on without any change. *)
Theorem X12_clean_summary_keeps_backend_summary (w : world)
    (email : Main.EmailRequest) (log : list event) (raw : str) :
  delivered w Main.API_URL (Main.payload email) = Some raw ->
  has_required_fields (clean_response (strip raw)) = true ->
  exists r log',
    Main.summarize_email w email log = (inr r, log') /\
    App.clean_summary (PStr (Main.summary r)) = inr (Main.summary r) /\
    (forall ui subject sender recipient body ui_log resp d,
       session_post ui App.BACKEND_URL (form_payload subject sender recipient body) =
         Returns resp ->
       status_code resp = 200%Z ->
       json resp = inr (PDict d) ->
       get d (lit "status") = Some (PStr (lit "success")) ->
       get d (lit "summary") = Some (PStr (Main.summary r)) ->
       App.summarize_email ui subject sender recipient body ui_log =
       (inr (PDict d),
        ui_log ++ [HttpPost App.BACKEND_URL (form_payload subject sender recipient body)])).
Proof.
  intros D F.
  destruct (main_summary_clean w email log raw D F) as (r & Hr & _ & N & E & T).
  exists r. eexists. split; [exact Hr|].
  assert (C := clean_summary_fixed (Main.summary r) T E).
  split; [exact C|].
  intros ui subject sender recipient body ui_log resp d P S J Gs Gm.
  unfold App.summarize_email, try_except, bind, post, lift, ret.
  change (PDict [(lit "subject", PStr subject); (lit "sender", PStr sender);
                 (lit "recipient", PStr recipient); (lit "body", PStr body)])
    with (form_payload subject sender recipient body).
  rewrite P, S, J. change (200 =? 200)%Z with true. cbv iota.
  cbn [py_get py_getitem]. unfold getitem. rewrite Gs, Gm.
  cbn [py_eq_str]. rewrite str_eqb_refl. cbn [py_truthy].
  apply truthy_iff in N. rewrite N, C. cbn [py_setitem].
  rewrite (setitem_same d (lit "summary") (PStr (Main.summary r)) Gm).
  reflexivity.
Qed.

Lemma X12_clean_summary_keeps_backend_summary_witness :
  exists r log',
    Main.summarize_email (world_replying empty_summary_reply) sample_email [] =
      (inr r, log') /\
    App.clean_summary (PStr (Main.summary r)) = inr (Main.summary r).
Proof.
  destruct (X12_clean_summary_keeps_backend_summary
              (world_replying empty_summary_reply) sample_email []
              empty_summary_reply eq_refl eq_refl)
    as (r & log' & Hr & C & _).
  exists r, log'. split; assumption.
Defined.

(** X13 — The request function of the form never raises and posts once.
    An exception of the call gives the error result "Request timed out"
    for a timeout and the text of the exception otherwise; a status other
    than 200 gives "API returned {status}"; a body that is no JSON object
    gives the text of the [AttributeError]; an object whose "status" is
    not "success" is returned as it is; and in a successful object with a
    non-empty string summary only the "summary" entry is rewritten, to the
    trimmed text after the last "<think>". *)
Theorem X13_form_request (w : world) (subject sender recipient body : str)
    (log : list event) :
  exists result,
    App.summarize_email w subject sender recipient body log =
      (inr result,
       log ++ [HttpPost App.BACKEND_URL (form_payload subject sender recipient body)]) /\
    (forall e,
       session_post w App.BACKEND_URL (form_payload subject sender recipient body) =
         Raises e ->
       result =
       App.failure
         (match e with
          | Timeout _ => lit "Request timed out"
          | _ => exc_str w e
          end)) /\
    (forall resp,
       session_post w App.BACKEND_URL (form_payload subject sender recipient body) =
         Returns resp ->
       (status_code resp <> 200%Z ->
        result = App.failure (lit "API returned " ++ str_of_int (status_code resp))) /\
       (status_code resp = 200%Z ->
        (forall answer,
           json resp = inr answer -> is_dict answer = false ->
           result = App.failure (exc_str w AttributeError)) /\
        (forall d,
           json resp = inr (PDict d) ->
           get d (lit "status") <> Some (PStr (lit "success")) ->
           result = PDict d) /\
        (forall d s,
           json resp = inr (PDict d) ->
           get d (lit "status") = Some (PStr (lit "success")) ->
           get d (lit "summary") = Some (PStr s) ->
           s <> [] ->
           result =
           PDict (setitem d (lit "summary")
                    (PStr (strip (if contains THINK s
                                  then strip (last (split s THINK) [])
                                  else s))))))).
Proof.
  unfold App.summarize_email, try_except, bind, post, lift, ret.
  change (PDict [(lit "subject", PStr subject); (lit "sender", PStr sender);
                 (lit "recipient", PStr recipient); (lit "body", PStr body)])
    with (form_payload subject sender recipient body).
  destruct (session_post w App.BACKEND_URL (form_payload subject sender recipient body))
    as [e|resp] eqn:P.
  { exists (App.failure
              match e with
              | Timeout _ => lit "Request timed out"
              | _ => exc_str w e
              end).
    split; [destruct e; reflexivity|]. split; [|intros resp H; discriminate].
    intros e' H. injection H as <-. reflexivity. }
  destruct (status_code resp =? 200)%Z eqn:S.
  2:{ eexists. split; [reflexivity|]. split; [intros e H; discriminate|].
      intros resp' H. injection H as <-. apply Z.eqb_neq in S.
      split; [reflexivity | intros H; contradiction]. }
  apply Z.eqb_eq in S.
  assert (Done : forall result : pyobj,
            ((forall answer,
                json resp = inr answer -> is_dict answer = false ->
                result = App.failure (exc_str w AttributeError)) /\
             (forall d,
                json resp = inr (PDict d) ->
                get d (lit "status") <> Some (PStr (lit "success")) ->
                result = PDict d) /\
             (forall d s,
                json resp = inr (PDict d) ->
                get d (lit "status") = Some (PStr (lit "success")) ->
                get d (lit "summary") = Some (PStr s) ->
                s <> [] ->
                result =
                PDict (setitem d (lit "summary")
                         (PStr (strip (if contains THINK s
                                       then strip (last (split s THINK) [])
                                       else s)))))) ->
            (forall e, Returns resp = Raises e ->
               result = App.failure
                          (match e with
                           | Timeout _ => lit "Request timed out"
                           | _ => exc_str w e
                           end)) /\
            (forall resp',
               Returns resp = Returns resp' ->
               (status_code resp' <> 200%Z ->
                result = App.failure
                           (lit "API returned " ++ str_of_int (status_code resp'))) /\
               (status_code resp' = 200%Z ->
                (forall answer,
                   json resp' = inr answer -> is_dict answer = false ->
                   result = App.failure (exc_str w AttributeError)) /\
                (forall d,
                   json resp' = inr (PDict d) ->
                   get d (lit "status") <> Some (PStr (lit "success")) ->
                   result = PDict d) /\
                (forall d s,
                   json resp' = inr (PDict d) ->
                   get d (lit "status") = Some (PStr (lit "success")) ->
                   get d (lit "summary") = Some (PStr s) ->
                   s <> [] ->
                   result =
                   PDict (setitem d (lit "summary")
                            (PStr (strip (if contains THINK s
                                          then strip (last (split s THINK) [])
                                          else s)))))))).
  { intros result H. split; [intros e E; discriminate|].
    intros resp' E. injection E as <-. split; [intros N; contradiction | intros _; exact H]. }
  destruct (json resp) as [e|answer] eqn:J.
  { exists (App.failure
              match e with
              | Timeout _ => lit "Request timed out"
              | _ => exc_str w e
              end).
    split; [destruct e; reflexivity|]. apply Done.
    split; [|split]; intros; discriminate. }
  destruct answer as [| | | | | |d];
    try (eexists; split; [reflexivity|]; apply Done;
         split; [intros answer E _; reflexivity
                | split; intros; discriminate]).
  cbn [py_get py_getitem py_setitem]. unfold getitem.
  assert (NotDict : forall answer result, inr (PDict d) = @inr exn pyobj answer ->
            is_dict answer = false -> result = App.failure (exc_str w AttributeError)).
  { intros answer result E F. injection E as <-. discriminate F. }
  destruct (py_eq_str match get d (lit "status") with
                      | Some v => v
                      | None => PNone
                      end (lit "success")) eqn:Q.
  - assert (Gs : get d (lit "status") = Some (PStr (lit "success"))).
    { destruct (get d (lit "status")) as [[| | | |t| |]|]; try discriminate Q.
      cbn [py_eq_str] in Q. apply str_eqb_eq in Q. subst t. reflexivity. }
    destruct (get d (lit "summary")) as [v|] eqn:Gm.
    + destruct (py_truthy v) eqn:Tv.
      * destruct (App.clean_summary v) as [e|cleaned] eqn:C.
        -- exists (App.failure
                 match e with
                 | Timeout _ => lit "Request timed out"
                 | _ => exc_str w e
                 end).
           split; [destruct e; reflexivity|]. apply Done.
           split; [intros; eapply NotDict; eassumption|]. split.
           ++ intros d' E N. injection E as <-. contradiction.
           ++ intros d' s E _ Gm' Ns. injection E as <-. rewrite Gm in Gm'.
              injection Gm' as ->. exfalso.
              unfold App.clean_summary in C. cbn [py_contains rbind] in C.
              destruct (contains THINK s); discriminate C.
        -- eexists. split; [reflexivity|]. apply Done.
           split; [intros; eapply NotDict; eassumption|]. split.
           ++ intros d' E N. injection E as <-. contradiction.
           ++ intros d' s E _ Gm' Ns. injection E as <-. rewrite Gm in Gm'.
              injection Gm' as ->.
              unfold App.clean_summary in C. cbn [py_contains rbind] in C.
              destruct (contains THINK s); cbn [py_split py_strip rbind] in C;
                injection C as <-; reflexivity.
      * eexists. split; [reflexivity|]. apply Done.
        split; [intros; eapply NotDict; eassumption|]. split.
        -- intros d' E N. injection E as <-. contradiction.
        -- intros d' s E _ Gm' Ns. injection E as <-. rewrite Gm in Gm'.
           injection Gm' as ->. cbn [py_truthy] in Tv.
           apply truthy_iff in Ns. congruence.
    + cbn [py_truthy]. eexists. split; [reflexivity|]. apply Done.
      split; [intros; eapply NotDict; eassumption|]. split.
      * intros d' E N. injection E as <-. contradiction.
      * intros d' s E _ Gm' _. injection E as <-. congruence.
  - eexists. split; [reflexivity|]. apply Done.
    split; [intros; eapply NotDict; eassumption|]. split.
    + intros d' E _. injection E as <-. reflexivity.
    + intros d' s E Gs _ _. injection E as <-. rewrite Gs in Q.
      cbn [py_eq_str] in Q. rewrite str_eqb_refl in Q. discriminate.
Qed.

(** ** What the page shows *)

Lemma risk_level_of_assessment (level details : str) :
  In level risk_levels ->
  AppView.risk_level (level ++ lit " - " ++ details) = level /\
  AppView.history_risk_level (level ++ lit " - " ++ details) = level.
Proof.
  intros [<- | [<- | [<- | [<- | []]]]]; split; reflexivity.
Qed.

(** X14 — The page recovers the risk level of every successful reply of
    [main.py] from its risk assessment, in the result column and in the
    sidebar alike, whatever the details contain (a " - " among them too),
    and colours LOW green, MEDIUM orange, HIGH red and UNKNOWN gray.  On
    a text without " - " the two places differ: the column takes the
    empty level, the sidebar the whole text. *)
Theorem X14_risk_level_round_trip (w : world) (email : Main.EmailRequest)
    (log : list event) (raw : str) :
  delivered w Main.API_URL (Main.payload email) = Some raw ->
  has_required_fields (clean_response (strip raw)) = true ->
  exists r log' level,
    Main.summarize_email w email log = (inr r, log') /\
    level =
      normalize_risk_level
        (last_nonempty_match RISK_LEVEL (lit "UNKNOWN")
           (content_lines (clean_response (strip raw)))) /\
    AppView.risk_level (Main.risk_assessment r) = level /\
    AppView.history_risk_level (Main.risk_assessment r) = level /\
    (level = lit "LOW" /\ AppView.risk_color level = lit "green" \/
     level = lit "MEDIUM" /\ AppView.risk_color level = lit "orange" \/
     level = lit "HIGH" /\ AppView.risk_color level = lit "red" \/
     level = lit "UNKNOWN" /\ AppView.risk_color level = lit "gray") /\
    (forall text,
       contains AppView.SEP text = false ->
       AppView.risk_level text = [] /\ AppView.history_risk_level text = text).
Proof.
  intros D F. rewrite (main_delivered w email log raw D).
  eexists. eexists. eexists. split; [reflexivity|]. split; [reflexivity|].
  unfold main_reply. rewrite F. cbn [Main.risk_assessment].
  pose proof (normalize_risk_level_in
                (last_nonempty_match RISK_LEVEL (lit "UNKNOWN")
                   (content_lines (clean_response (strip raw))))) as Hin.
  destruct (risk_level_of_assessment _
              (last_nonempty_match RISK_DETAILS (lit "No details provided")
                 (content_lines (clean_response (strip raw)))) Hin) as [H1 H2].
  split; [exact H1|]. split; [exact H2|]. split.
  - destruct Hin as [<- | [<- | [<- | [<- | []]]]].
    + left. split; reflexivity.
    + right; left. split; reflexivity.
    + right; right; left. split; reflexivity.
    + right; right; right. split; reflexivity.
  - intros text C. unfold AppView.risk_level, AppView.history_risk_level.
    rewrite C. split; [reflexivity|].
    unfold split. rewrite split_no_occurrence by exact C. reflexivity.
Qed.

Lemma X14_risk_level_round_trip_witness :
  exists r log' level,
    Main.summarize_email
      (world_replying
         (lit "SUMMARY: Invoice" ++ LF ++ lit "RISK_LEVEL: HIGH" ++ LF
            ++ lit "RISK_DETAILS: Odd sender - urgent tone"))
      sample_email [] = (inr r, log') /\
    AppView.risk_level (Main.risk_assessment r) = level /\
    AppView.history_risk_level (Main.risk_assessment r) = level.
Proof.
  destruct (X14_risk_level_round_trip
              (world_replying
                 (lit "SUMMARY: Invoice" ++ LF ++ lit "RISK_LEVEL: HIGH" ++ LF
                    ++ lit "RISK_DETAILS: Odd sender - urgent tone"))
              sample_email []
              (lit "SUMMARY: Invoice" ++ LF ++ lit "RISK_LEVEL: HIGH" ++ LF
                 ++ lit "RISK_DETAILS: Odd sender - urgent tone")
              eq_refl eq_refl)
    as (r & log' & level & Hr & _ & H1 & H2 & _).
  exists r, log', level. repeat split; assumption.
Defined.

Lemma get_map_some (f : str -> str) (ks : list str) (k v : str) :
  get (map (fun x => (x, f x)) ks) k = Some v -> v = f k /\ In k ks.
Proof.
  induction ks as [|y ks IH]; [discriminate|]. cbn [map get].
  destruct (str_eqb y k) eqn:E.
  - apply str_eqb_eq in E. subst y. intros H; injection H as <-.
    split; [reflexivity | left; reflexivity].
  - intros H. destruct (IH H) as [H1 H2]. split; [exact H1 | right; exact H2].
Qed.

(** X15 — A scanned link is shown green exactly when the [validators]
    package is there and accepts it; INVALID links are red, and without
    the package every link is red. *)
Theorem X15_green_links_are_validated (validators : option (str -> bool))
    (links : list str) (link status : str) :
  get (Main.scan_links validators links) link = Some status ->
  In link links /\
  (AppView.status_color status = lit "green" <->
   exists url, validators = Some url /\ url link = true) /\
  (AppView.status_color status = lit "green" \/
   AppView.status_color status = lit "red").
Proof.
  rewrite scan_links_spec. intros H. apply get_map_some in H as [-> Hin].
  split; [apply dedup_in, Hin|]. unfold classify.
  destruct validators as [url|].
  - destruct (url link) eqn:U.
    + split; [|left; reflexivity]. split; [|reflexivity].
      intros _. exists url. split; [reflexivity | exact U].
    + split; [|right; reflexivity]. split; [discriminate|].
      intros (url' & E & U'). injection E as <-. congruence.
  - split; [|right; reflexivity]. split; [discriminate|].
    intros (url & E & _). discriminate.
Qed.

Lemma X15_green_links_are_validated_witness :
  AppView.status_color (lit "SAFE") = lit "green" <->
  exists url, Some https_only = Some url /\ url (lit "https://example.com/pay") = true.
Proof.
  apply (X15_green_links_are_validated (Some https_only)
           [lit "http://example.com/a"; lit "https://example.com/pay"]
           (lit "https://example.com/pay") (lit "SAFE") eq_refl).
Defined.

(** ** Markers that do not begin a line *)

Lemma last_nonempty_match_default (field default : str) (lines : list str) :
  (forall line, In line lines -> startswith line field = false) ->
  last_nonempty_match field default lines = default.
Proof.
  intros H.
  destruct (last_nonempty_match_cases field default lines)
    as [E | (line & Hin & Hm & _)]; [exact E|].
  unfold nonempty_match in Hm. rewrite (H line Hin) in Hm. discriminate.
Qed.

(** X16 — The presence check looks for the markers anywhere, the
    extraction only at the start of a line.  A reply that holds the three
    markers but in which no line starts with one is answered with status
    "success", the default summary and "UNKNOWN - No details provided". *)
Theorem X16_markers_inside_lines (w : world) (email : Main.EmailRequest)
    (log : list event) (raw : str) :
  delivered w Main.API_URL (Main.payload email) = Some raw ->
  has_required_fields (clean_response (strip raw)) = true ->
  (forall line field,
     In line (content_lines (clean_response (strip raw))) ->
     In field required_fields ->
     startswith line field = false) ->
  Main.summarize_email w email log =
  (inr {| Main.summary := lit "No summary available";
          Main.status := lit "success";
          Main.risk_assessment := lit "UNKNOWN - No details provided";
          Main.error := None;
          Main.link_scan_results :=
            Some (Main.scan_links (validators_url w)
                    (Main.extract_links (Main.body email))) |},
   log ++ [HttpPost Main.API_URL (Main.payload email)]).
Proof.
  intros D F H. rewrite (main_delivered w email log raw D).
  unfold main_reply. rewrite F.
  rewrite !last_nonempty_match_default; [reflexivity| | |];
    intros line Hin; apply H; try exact Hin.
  - right; right; left; reflexivity.
  - right; left; reflexivity.
  - left; reflexivity.
Qed.

Lemma X16_markers_inside_lines_witness :
  Main.summarize_email
    (world_replying
       (lit "Result: SUMMARY: Invoice RISK_LEVEL: HIGH RISK_DETAILS: Odd sender"))
    sample_email [] =
  (inr {| Main.summary := lit "No summary available";
          Main.status := lit "success";
          Main.risk_assessment := lit "UNKNOWN - No details provided";
          Main.error := None;
          Main.link_scan_results :=
            Some (Main.scan_links None (Main.extract_links (Main.body sample_email))) |},
   [] ++ [HttpPost Main.API_URL (Main.payload sample_email)]).
Proof.
  apply (X16_markers_inside_lines
           (world_replying
              (lit "Result: SUMMARY: Invoice RISK_LEVEL: HIGH RISK_DETAILS: Odd sender"))
           sample_email []
           (lit "Result: SUMMARY: Invoice RISK_LEVEL: HIGH RISK_DETAILS: Odd sender")
           eq_refl eq_refl).
  intros line field [<- | []] [<- | [<- | [<- | []]]]; reflexivity.
Defined.
